(** * voicedeck: hypercert retrieval and submission schema

    A shallow embedding of

    - [src/utils/supabase/hypercerts.ts] ([fetchHypercerts]), and
    - [src/components/submit/hypercert-form.tsx] ([HypercertMintSchema] and
      [onSubmit]),

    together with the properties the specification states about them. *)

From Stdlib Require Import String Ascii List Bool Arith NArith ZArith QArith Lia.
Import ListNotations.

Close Scope Q_scope.
Open Scope string_scope.
Open Scope list_scope.

(* ===================================================================== *)
(** * Hypercert retrieval *)
(* ===================================================================== *)

Module Retrieval.

(** A JavaScript [Error] value. *)
Record Error := mkError { name : string; message : string }.

(** ** Shapes of the two GraphQL responses *)

(** Modelled from the spec: the response types generated from the GraphQL
    queries ([@/graphql/queries]) are not among the sources. A hyperboard
    resolves to its sections' entries, each entry exposing an id; a
    hypercert resolves to its record. The nesting follows the access path
    of the code: a field reached through [?.] is optional, a field reached
    through [.] is not. *)

Record Entry := { entry_id : string }.
Record Section_ := { entries : list Entry }.
Record SectionsConnection := { sections_data : option (list Section_) }.
Record Hyperboard := { sections : option SectionsConnection }.
Record HyperboardsConnection := { hyperboards_data : option (list Hyperboard) }.
Record HyperboardsResponse := { hyperboards : option HyperboardsConnection }.

Record HypercertsConnection (Hypercert : Type) :=
  { hypercerts_data : option (list Hypercert) }.
Arguments hypercerts_data {Hypercert} _.
Record HypercertsResponse (Hypercert : Type) :=
  { hypercerts : option (HypercertsConnection Hypercert) }.
Arguments hypercerts {Hypercert} _.

(** ** Promises

    A promise is described by how it settles: with a value or with a
    rejection reason, and when. *)

Record Promise (A : Type) := { settledAt : nat; outcome : Error + A }.
Arguments settledAt {A} _.
Arguments outcome {A} _.

(** [Promise.all]: the values in index order when every promise fulfils,
    otherwise the reason of the promise that rejects first in time (the
    lowest index among those rejecting at the same instant). *)
Fixpoint Promise_all_outcome {A} (ps : list (Promise A))
  : (nat * Error) + list A :=
  match ps with
  | [] => inr []
  | p :: rest =>
      match outcome p, Promise_all_outcome rest with
      | inr v, inr vs => inr (v :: vs)
      | inr _, inl r => inl r
      | inl e, inr _ => inl (settledAt p, e)
      | inl e, inl (t, e') =>
          if Nat.leb (settledAt p) t then inl (settledAt p, e) else inl (t, e')
      end
  end.

Definition Promise_all {A} (ps : list (Promise A)) : Promise (list A) :=
  match Promise_all_outcome ps with
  | inl (t, e) => {| settledAt := t; outcome := inl e |}
  | inr vs => {| settledAt := list_max (map settledAt ps); outcome := inr vs |}
  end.

(** ** Observable effects and the execution monad *)

Inductive Query :=
| getHyperboardsByIdQuery (id : string)
| getHypercertsByHypercertIdQuery (hypercert_id : string).

Inductive Event :=
| Requested (endpoint : string) (q : Query)
| Logged (label : string) (ids : list string).

(** A computation emits events and either raises or returns. *)
Definition Exec (A : Type) : Type := list Event * (Error + A).

Definition ret {A} (a : A) : Exec A := ([], inr a).
Definition throw {A} (e : Error) : Exec A := ([], inl e).
Definition emit (ev : Event) : Exec unit := ([ev], inr tt).

Definition bind {A B} (m : Exec A) (k : A -> Exec B) : Exec B :=
  match m with
  | (t, inl e) => (t, inl e)
  | (t, inr a) => let '(t', r) := k a in (t ++ t', r)
  end.

Definition try_catch {A} (body : Exec A) (handler : Error -> Exec A) : Exec A :=
  match body with
  | (t, inl e) => let '(t', r) := handler e in (t ++ t', r)
  | (t, inr a) => (t, inr a)
  end.

Definition await {A} (p : Promise A) : Exec A :=
  match outcome p with
  | inl e => throw e
  | inr v => ret v
  end.

Notation "x <- m ;; k" := (bind m (fun x => k))
  (at level 61, m at next level, right associativity).

(** [xs.map((x, i) => f i x)] for an effectful callback. *)
Fixpoint mapM_from {A B} (f : nat -> A -> Exec B) (i : nat) (xs : list A)
  : Exec (list B) :=
  match xs with
  | [] => ret []
  | x :: rest =>
      y <- f i x ;;
      ys <- mapM_from f (S i) rest ;;
      ret (y :: ys)
  end.

(** ** The result envelope: an object with an optional [data] and an
    optional [error] property. *)

Record Envelope (Hypercert : Type) :=
  { data : option (list (option Hypercert)); error : option Error }.
Arguments data {Hypercert} _.
Arguments error {Hypercert} _.

Definition isSome {A} (o : option A) : bool :=
  match o with Some _ => true | None => false end.

Section Fetch.

Context {Hypercert : Type}.

(** Configuration constants ([@/config/graphql], [@/config/hypercert]). *)
Variable HYPERCERTS_GRAPHQL_ENDPOINT : string.
Variable hyperboardId : string.

(** The remote service: how the hyperboard request settles, and how the
    request issued for the identifier at position [i] of the fan-out
    settles. *)
Record World := {
  hyperboardsById : string -> Promise HyperboardsResponse;
  hypercertsByHypercertId :
    nat -> string -> Promise (option (HypercertsResponse Hypercert))
}.

Variable w : World.

Definition requestHyperboards (id : string)
  : Exec (Promise HyperboardsResponse) :=
  _ <- emit (Requested HYPERCERTS_GRAPHQL_ENDPOINT (getHyperboardsByIdQuery id)) ;;
  ret (hyperboardsById w id).

Definition requestHypercert (i : nat) (hypercert_id : string)
  : Exec (Promise (option (HypercertsResponse Hypercert))) :=
  _ <- emit (Requested HYPERCERTS_GRAPHQL_ENDPOINT
               (getHypercertsByHypercertIdQuery hypercert_id)) ;;
  ret (hypercertsByHypercertId w i hypercert_id).

(** [res.hyperboards?.data?.[0]?.sections?.data?.[0]?.entries.map(e => e.id)] *)
Definition hypercertIdsOf (res : HyperboardsResponse) : option (list string) :=
  match hyperboards res with
  | None => None
  | Some hbs =>
      match hyperboards_data hbs with
      | None => None
      | Some boards =>
          match nth_error boards 0 with
          | None => None
          | Some board =>
              match sections board with
              | None => None
              | Some secs =>
                  match sections_data secs with
                  | None => None
                  | Some ss =>
                      match nth_error ss 0 with
                      | None => None
                      | Some sec => Some (map entry_id (entries sec))
                      end
                  end
              end
          end
      end
  end.

(** [hypercert?.hypercerts?.data?.[0] || null] *)
Definition firstHypercert (hypercert : option (HypercertsResponse Hypercert))
  : option Hypercert :=
  match hypercert with
  | None => None
  | Some r =>
      match hypercerts r with
      | None => None
      | Some c =>
          match hypercerts_data c with
          | None => None
          | Some l => nth_error l 0
          end
      end
  end.

Definition notFoundError : Error :=
  mkError "Error" "No hypercert IDs found (status code: 404)".

(** The body of the [try] block. *)
Definition fetchHypercerts_try : Exec (Envelope Hypercert) :=
  p <- requestHyperboards hyperboardId ;;
  res <- await p ;;
  let hypercertIds := hypercertIdsOf res in
  match hypercertIds with
  | None =>
      let errorMessage := "No hypercert IDs found (status code: 404)" in
      throw (mkError "Error" errorMessage)
  | Some hypercertIds =>
      _ <- emit (Logged "Hypercert IDs" hypercertIds) ;;
      hypercertPromises <- mapM_from requestHypercert 0 hypercertIds ;;
      hypercertsData <- await (Promise_all hypercertPromises) ;;
      let hypercerts := map firstHypercert hypercertsData in
      ret {| data := Some (filter isSome hypercerts); error := None |}
  end.

Definition fetchHypercerts : Exec (Envelope Hypercert) :=
  try_catch fetchHypercerts_try
    (fun error => ret {| data := None; error := Some error |}).

End Fetch.

(** ** The specification's reading of the response, used to state the
    properties below. *)

Definition firstHyperboard (res : HyperboardsResponse) : option Hyperboard :=
  match hyperboards res with
  | Some {| hyperboards_data := Some (board :: _) |} => Some board
  | _ => None
  end.

Definition firstSection (board : Hyperboard) : option Section_ :=
  match sections board with
  | Some {| sections_data := Some (sec :: _) |} => Some sec
  | _ => None
  end.

(** No hyperboard came back. *)
Definition hyperboardMissing (res : HyperboardsResponse) : Prop :=
  firstHyperboard res = None.

(** A hyperboard came back, without a section. *)
Definition sectionMissing (res : HyperboardsResponse) : Prop :=
  exists board, firstHyperboard res = Some board /\ firstSection board = None.

(** The first section of the first hyperboard has the entries [es]. *)
Definition entriesAre (res : HyperboardsResponse) (es : list Entry) : Prop :=
  exists board sec,
    firstHyperboard res = Some board /\ firstSection board = Some sec /\
    entries sec = es.

(** The first record of a per-identifier response; absent when the result
    list is empty or missing. *)
Definition firstRecord {Hypercert}
  (r : option (HypercertsResponse Hypercert)) : option Hypercert :=
  match r with
  | Some {| hypercerts := Some {| hypercerts_data := Some (record :: _) |} |} =>
      Some record
  | _ => None
  end.

(** The records of the identifiers [ids] (at positions [i], [i+1], ...) in
    the order of [ids], an identifier without a record left out. *)
Fixpoint survivingRecords {Hypercert}
  (reply : nat -> string -> option (HypercertsResponse Hypercert))
  (i : nat) (ids : list string) : list Hypercert :=
  match ids with
  | [] => []
  | id :: rest =>
      match firstRecord (reply i id) with
      | Some record => record :: survivingRecords reply (S i) rest
      | None => survivingRecords reply (S i) rest
      end
  end.

(** The per-identifier requests of a fan-out over [ids]. *)
Fixpoint fanOutRequests (endpoint : string) (ids : list string) : list Event :=
  match ids with
  | [] => []
  | id :: rest =>
      Requested endpoint (getHypercertsByHypercertIdQuery id)
      :: fanOutRequests endpoint rest
  end.

Definition isPerIdentifierRequest (ev : Event) : bool :=
  match ev with
  | Requested _ (getHypercertsByHypercertIdQuery _) => true
  | _ => false
  end.

(** The promises of a fan-out over [ids] whose first identifier has
    position [i]. *)
Fixpoint fanOutPromises {Hypercert} (w : @World Hypercert) (i : nat)
  (ids : list string) : list (Promise (option (HypercertsResponse Hypercert))) :=
  match ids with
  | [] => []
  | id :: rest => hypercertsByHypercertId w i id :: fanOutPromises w (S i) rest
  end.

(** The exceptions an execution can raise inside the [try] block: the
    hyperboard request rejects, the identifier list is missing, or one of
    the per-identifier requests rejects. *)
Inductive Raised {Hypercert} (hyperboardId : string) (w : @World Hypercert)
  : Error -> Prop :=
| hyperboard_request_rejected e :
    outcome (hyperboardsById w hyperboardId) = inl e ->
    Raised hyperboardId w e
| identifier_list_missing res :
    outcome (hyperboardsById w hyperboardId) = inr res ->
    hypercertIdsOf res = None ->
    Raised hyperboardId w notFoundError
| identifier_request_rejected res ids i id e :
    outcome (hyperboardsById w hyperboardId) = inr res ->
    hypercertIdsOf res = Some ids ->
    nth_error ids i = Some id ->
    outcome (hypercertsByHypercertId w i id) = inl e ->
    Raised hyperboardId w e.

(** Among the per-identifier requests over [ids], the one at position [j]
    rejects with [e], and none rejects before it. *)
Definition firstToReject {Hypercert} (w : @World Hypercert)
  (ids : list string) (j : nat) (e : Error) : Prop :=
  exists id,
    nth_error ids j = Some id /\
    outcome (hypercertsByHypercertId w j id) = inl e /\
    forall i id' e',
      nth_error ids i = Some id' ->
      outcome (hypercertsByHypercertId w i id') = inl e' ->
      settledAt (hypercertsByHypercertId w j id)
      <= settledAt (hypercertsByHypercertId w i id').

(** The failure envelope [{ error }]. *)
Definition failureEnvelope {Hypercert} (e : Error) : Envelope Hypercert :=
  {| data := None; error := Some e |}.

(** ** Sample responses and worlds *)

Module Samples.

Definition boardWith (es : list Entry) : HyperboardsResponse :=
  {| hyperboards := Some {| hyperboards_data := Some
       [ {| sections := Some {| sections_data := Some [ {| entries := es |} ] |} |} ] |} |}.

Definition noBoard : HyperboardsResponse :=
  {| hyperboards := Some {| hyperboards_data := Some [] |} |}.

Definition recordOf (r : string) : option (HypercertsResponse string) :=
  Some {| hypercerts := Some {| hypercerts_data := Some [r] |} |}.

Definition noRecord : option (HypercertsResponse string) :=
  Some {| hypercerts := Some {| hypercerts_data := Some [] |} |}.

Definition timedOut : Error := mkError "ClientError" "request timed out".

(** A hyperboard with an empty entries list. *)
Definition emptyBoardWorld : @World string :=
  {| hyperboardsById := fun _ => {| settledAt := 1; outcome := inr (boardWith []) |};
     hypercertsByHypercertId := fun _ id =>
       {| settledAt := 2; outcome := inr (recordOf id) |} |}.

(** No hyperboard at all. *)
Definition noBoardWorld : @World string :=
  {| hyperboardsById := fun _ => {| settledAt := 1; outcome := inr noBoard |};
     hypercertsByHypercertId := fun _ id =>
       {| settledAt := 2; outcome := inr (recordOf id) |} |}.

(** Three entries; the second identifier resolves to no record. *)
Definition threeEntriesWorld : @World string :=
  {| hyperboardsById := fun _ =>
       {| settledAt := 1;
          outcome := inr (boardWith [ {| entry_id := "a" |};
                                      {| entry_id := "b" |};
                                      {| entry_id := "c" |} ]) |};
     hypercertsByHypercertId := fun i id =>
       {| settledAt := 5 - i;
          outcome := inr (if String.eqb id "b" then noRecord else recordOf id) |} |}.

Definition firstError : Error := mkError "ClientError" "first".
Definition thirdError : Error := mkError "ClientError" "third".

(** Three entries; the requests for the first and for the third identifier
    both reject, the third one earlier than the first. *)
Definition twoRejectionsWorld : @World string :=
  {| hyperboardsById := fun _ =>
       {| settledAt := 1;
          outcome := inr (boardWith [ {| entry_id := "a" |};
                                      {| entry_id := "b" |};
                                      {| entry_id := "c" |} ]) |};
     hypercertsByHypercertId := fun i id =>
       if String.eqb id "a" then {| settledAt := 9; outcome := inl firstError |}
       else if String.eqb id "c"
            then {| settledAt := 4; outcome := inl thirdError |}
            else {| settledAt := 6; outcome := inr (recordOf id) |} |}.

(** The same service as [threeEntriesWorld], the replies arriving in the
    opposite order. *)
Definition threeEntriesReorderedWorld : @World string :=
  {| hyperboardsById := fun _ =>
       {| settledAt := 3;
          outcome := inr (boardWith [ {| entry_id := "a" |};
                                      {| entry_id := "b" |};
                                      {| entry_id := "c" |} ]) |};
     hypercertsByHypercertId := fun i id =>
       {| settledAt := 10 + i;
          outcome := inr (if String.eqb id "b" then noRecord else recordOf id) |} |}.

Definition threeEntriesReply (i : nat) (id : string)
  : option (HypercertsResponse string) :=
  if String.eqb id "b" then noRecord else recordOf id.

(** Three entries; the request for the second identifier rejects. *)
Definition rejectingWorld : @World string :=
  {| hyperboardsById := fun _ =>
       {| settledAt := 1;
          outcome := inr (boardWith [ {| entry_id := "a" |};
                                      {| entry_id := "b" |};
                                      {| entry_id := "c" |} ]) |};
     hypercertsByHypercertId := fun i id =>
       {| settledAt := 2 + i;
          outcome := if String.eqb id "b" then inl timedOut
                     else inr (recordOf id) |} |}.

End Samples.

End Retrieval.

(* ===================================================================== *)
(** * JavaScript strings *)
(* ===================================================================== *)

(** A string is a sequence of code units; the model covers the code units
    0..255, one [ascii] each. *)

Module JsString.

(** White space and line terminators removed by [trim], among the code
    units 0..255: TAB, LF, VT, FF, CR, SPACE and NO-BREAK SPACE. *)
Definition isWhiteSpace (c : ascii) : bool :=
  let n := N_of_ascii c in
  ((9 <=? n) && (n <=? 13) || (n =? 32) || (n =? 160))%N.

Fixpoint trimStart (s : string) : string :=
  match s with
  | EmptyString => EmptyString
  | String c rest => if isWhiteSpace c then trimStart rest else s
  end.

Fixpoint trimEnd (s : string) : string :=
  match s with
  | EmptyString => EmptyString
  | String c rest =>
      match trimEnd rest with
      | EmptyString => if isWhiteSpace c then EmptyString else String c EmptyString
      | t => String c t
      end
  end.

(** [s.trim()] *)
Definition trim (s : string) : string := trimStart (trimEnd s).

(** The scan of [split] for a non-empty separator: [cur] is the segment
    being read, [skip] the number of code units of a matched separator that
    are still to be passed over. *)
Fixpoint splitFrom (sep : string) (skip : nat) (cur : string) (s : string)
  : list string :=
  match s with
  | EmptyString => [cur]
  | String c rest =>
      match skip with
      | S k => splitFrom sep k cur rest
      | O =>
          if prefix sep s
          then cur :: splitFrom sep (String.length sep - 1) EmptyString rest
          else splitFrom sep 0 (String.append cur (String c EmptyString)) rest
      end
  end.

Fixpoint codeUnits (s : string) : list string :=
  match s with
  | EmptyString => []
  | String c rest => String c EmptyString :: codeUnits rest
  end.

(** [s.split(sep)] *)
Definition split (sep : string) (s : string) : list string :=
  match sep with
  | EmptyString => codeUnits s
  | _ => splitFrom sep 0 EmptyString s
  end.

(** [xs.every(p)] *)
Definition every {A} (p : A -> bool) (xs : list A) : bool := forallb p xs.

Fixpoint everyCodeUnit (p : ascii -> bool) (s : string) : bool :=
  match s with
  | EmptyString => true
  | String c rest => p c && everyCodeUnit p rest
  end.

(** [s !== ""] *)
Definition nonEmpty (s : string) : bool :=
  match s with EmptyString => false | _ => true end.

(** ** Specification-side notions *)

(** The segments of [s] between its commas, read off [s] directly. *)
Fixpoint commaSegments (s : string) : list string :=
  match s with
  | EmptyString => [EmptyString]
  | String c rest =>
      if Ascii.eqb c ","%char
      then EmptyString :: commaSegments rest
      else match commaSegments rest with
           | seg :: segs => String c seg :: segs
           | [] => [String c EmptyString]
           end
  end.

(** Whether a comma occurs in [s]. *)
Fixpoint hasComma (s : string) : bool :=
  match s with
  | EmptyString => false
  | String c rest => Ascii.eqb c "," || hasComma rest
  end.

(** A segment is non-empty after trimming when it has a code unit that is
    not white space. *)
Fixpoint hasVisibleCodeUnit (s : string) : bool :=
  match s with
  | EmptyString => false
  | String c rest => negb (isWhiteSpace c) || hasVisibleCodeUnit rest
  end.

End JsString.

(* ===================================================================== *)
(** * JavaScript dates and numbers *)
(* ===================================================================== *)

Module JsDate.

(** A [Date] object: a time value in milliseconds since the epoch, or an
    invalid date (time value [NaN]). *)
Inductive Date := ValidDate (ms : Z) | InvalidDate.

(** A number: [NaN] or a rational. Rounding to the nearest double is not
    modelled. *)
Inductive JsNumber := NaN | Num (q : Q).

(** [d.getTime()] *)
Definition getTime (d : Date) : JsNumber :=
  match d with
  | ValidDate ms => Num (inject_Z ms)
  | InvalidDate => NaN
  end.

(** [x / 1000] *)
Definition div1000 (x : JsNumber) : JsNumber :=
  match x with
  | Num q => Num (q / inject_Z 1000)%Q
  | NaN => NaN
  end.

(** [a <= b] on dates: the comparison of the time values, false when one
    of them is [NaN]. *)
Definition le (a b : Date) : bool :=
  match a, b with
  | ValidDate x, ValidDate y => (x <=? y)%Z
  | _, _ => false
  end.

(** [a > b] on dates. *)
Definition gt (a b : Date) : bool :=
  match a, b with
  | ValidDate x, ValidDate y => (y <? x)%Z
  | _, _ => false
  end.

(** [new Date("2024-06-02")] and [new Date("2024-06-30")]: midnight UTC. *)
Definition date_2024_06_02 : Date := ValidDate 1717286400000.
Definition date_2024_06_30 : Date := ValidDate 1719705600000.

End JsDate.

(* ===================================================================== *)
(** * The validation library (zod), as far as the schema uses it *)
(* ===================================================================== *)

Module Zod.

Import JsDate.

Record ZodIssue := { path : list string; message : string }.

(** The outcome of parsing one value: the issues raised, and the parsed
    value unless parsing was aborted. *)
Definition ParseReturn (O : Type) : Type := list ZodIssue * option O.

(** A schema parses an input found at a path. *)
Definition ZodType (I O : Type) : Type := list string -> I -> ParseReturn O.

Inductive SafeParseReturn (O : Type) :=
| success (data : O)
| failure (error : list ZodIssue).
Arguments success {O} _.
Arguments failure {O} _.

Definition safeParse {I O} (schema : ZodType I O) (input : I)
  : SafeParseReturn O :=
  match schema [] input with
  | ([], Some v) => success v
  | (issues, _) => failure issues
  end.

(** ** [z.string()] and its checks; every check is run *)

Definition StringCheck : Type := string -> option string.

Definition min (n : nat) (msg : string) : StringCheck :=
  fun s => if Nat.ltb (String.length s) n then Some msg else None.

Definition max (n : nat) (msg : string) : StringCheck :=
  fun s => if Nat.ltb n (String.length s) then Some msg else None.

Definition url (isUrl : string -> bool) (msg : string) : StringCheck :=
  fun s => if isUrl s then None else Some msg.

Definition string_ (checks : list StringCheck) : ZodType string string :=
  fun p s =>
    (flat_map (fun chk => match chk s with
                          | Some msg => [{| path := p; message := msg |}]
                          | None => []
                          end) checks,
     Some s).

(** ** [z.boolean()], [z.date()], [.default(d)] *)

Definition boolean : ZodType bool bool := fun _ b => ([], Some b).

Definition date : ZodType Date Date :=
  fun p d =>
    match d with
    | ValidDate _ => ([], Some d)
    | InvalidDate => ([{| path := p; message := "Invalid date" |}], None)
    end.

Definition default {I O} (schema : ZodType I O) (d : I) : ZodType (option I) O :=
  fun p x => schema p (match x with Some v => v | None => d end).

(** ** [.refine(check, {path, message})]

    The refinement runs unless the inner parse was aborted. Its issue is
    added at the path of the value being refined followed by the [path]
    option ("appended to error path", in the words of the library's
    documentation): for a refinement on the whole form [p] is empty and the
    option is the whole path, for a refinement on a field it comes after
    the name of the field. *)
Definition refine {I O} (schema : ZodType I O) (check : O -> bool)
  (relpath : list string) (msg : string) : ZodType I O :=
  fun p x =>
    match schema p x with
    | (issues, None) => (issues, None)
    | (issues, Some v) =>
        if check v then (issues, Some v)
        else (issues ++ [{| path := p ++ relpath; message := msg |}], Some v)
    end.

(** ** [.transform(f)]: runs only on a valid inner result *)
Definition transform {I O O'} (schema : ZodType I O) (f : O -> O')
  : ZodType I O' :=
  fun p x =>
    match schema p x with
    | ([], Some v) => ([], Some (f v))
    | (issues, _) => (issues, None)
    end.

(** ** [z.object({...})]: the fields are parsed in the order of the shape,
    all of them, and their issues collected *)

Definition pure {A} (a : A) : ParseReturn A := ([], Some a).

Definition field {A B} (acc : ParseReturn (A -> B)) (r : ParseReturn A)
  : ParseReturn B :=
  (fst acc ++ fst r,
   match snd acc, snd r with
   | Some f, Some a => Some (f a)
   | _, _ => None
   end).

End Zod.

(* ===================================================================== *)
(** * The submission form: schema and metadata *)
(* ===================================================================== *)

Module Submission.

Import JsString JsDate Zod.

Record DateRange := { from : Date; to : Date }.

(** The draft handed to the schema: its input type. The two work dates may
    be left out, the schema has defaults for them. *)
Module Draft.
Record t := {
  title : string;
  description : string;
  link : string;
  cardImage : string;
  logo : string;
  banner : string;
  tags : string;
  projectDates : DateRange;
  workStartDate : option Date;
  workEndDate : option Date;
  contributors : string;
  acceptTerms : bool;
  confirmContributorsPermission : bool
}.
End Draft.

(** The validated values: the output type of the schema. *)
Record MintingFormValues := {
  title : string;
  description : string;
  link : string;
  cardImage : string;
  logo : string;
  banner : string;
  tags : string;
  projectDates : DateRange;
  workStartDate : Date;
  workEndDate : Date;
  contributors : list string;
  acceptTerms : bool;
  confirmContributorsPermission : bool
}.

Definition isHexDigit (c : ascii) : bool :=
  let n := N_of_ascii c in
  ((48 <=? n) && (n <=? 57) || (65 <=? n) && (n <=? 70)
   || (97 <=? n) && (n <=? 102))%N.

(** Modelled from the spec: [isValidEthereumAddress] of [@/lib/utils], which
    is not among the sources. The specification describes the accepted
    shape as "0x followed by 40 hexadecimal characters". *)
Definition isValidEthereumAddress (address : string) : bool :=
  match address with
  | String "0" (String "x" digits) =>
      Nat.eqb (String.length digits) 40 && everyCodeUnit isHexDigit digits
  | _ => false
  end.

Section Schema.

(** Whether the platform's URL parser accepts a string. *)
Variable isUrl : string -> bool.

Definition title_schema : ZodType string string :=
  string_ [ min 1 "Hypercert Name is required";
            max 50 "Hypercert Name must be less than 50 characters" ].

Definition description_schema : ZodType string string :=
  string_ [ min 10 "Description is required and must be at least 10 characters";
            max 500 "Description must be less than 500 characters" ].

Definition link_schema : ZodType string string :=
  string_ [ url isUrl "Link must be a valid URL" ].

Definition cardImage_schema : ZodType string string :=
  string_ [ url isUrl "Card image not generated" ].

Definition logo_schema : ZodType string string :=
  string_ [ url isUrl "Logo Image must be a valid URL" ].

Definition banner_schema : ZodType string string :=
  string_ [ url isUrl "Background Banner Image must be a valid URL" ].

Definition tags_schema : ZodType string string :=
  refine (string_ [])
    (fun val => every (fun tag => nonEmpty (trim tag)) (split "," val))
    []
    "Tags must must not be empty, Multiple tags must be separated by commas".

Definition dateRange_object : ZodType DateRange DateRange :=
  fun p v =>
    field (field (pure Build_DateRange)
             (date (p ++ ["from"]) (from v)))
          (date (p ++ ["to"]) (to v)).

Definition projectDates_schema : ZodType DateRange DateRange :=
  refine dateRange_object
    (fun data => le (from data) (to data))
    ["projectDates"]
    "From date must be before to date".

Definition workStartDate_schema : ZodType (option Date) Date :=
  default date date_2024_06_02.

Definition workEndDate_schema : ZodType (option Date) Date :=
  default date date_2024_06_30.

Definition contributors_schema : ZodType string (list string) :=
  transform
    (refine (string_ [])
       (fun value =>
          let addresses := map (fun addr => trim addr) (split ", " value) in
          every (fun address => isValidEthereumAddress address) addresses)
       []
       "Each value must be a valid Ethereum address separated by a comma and a space.")
    (fun value => map (fun addr => trim addr) (split "," value)).

Definition HypercertMintSchema : ZodType Draft.t MintingFormValues :=
  fun p d =>
    field (field (field (field (field (field (field (field (field (field
    (field (field (field (pure Build_MintingFormValues)
      (title_schema (p ++ ["title"]) (Draft.title d)))
      (description_schema (p ++ ["description"]) (Draft.description d)))
      (link_schema (p ++ ["link"]) (Draft.link d)))
      (cardImage_schema (p ++ ["cardImage"]) (Draft.cardImage d)))
      (logo_schema (p ++ ["logo"]) (Draft.logo d)))
      (banner_schema (p ++ ["banner"]) (Draft.banner d)))
      (tags_schema (p ++ ["tags"]) (Draft.tags d)))
      (projectDates_schema (p ++ ["projectDates"]) (Draft.projectDates d)))
      (workStartDate_schema (p ++ ["workStartDate"]) (Draft.workStartDate d)))
      (workEndDate_schema (p ++ ["workEndDate"]) (Draft.workEndDate d)))
      (contributors_schema (p ++ ["contributors"]) (Draft.contributors d)))
      (boolean (p ++ ["acceptTerms"]) (Draft.acceptTerms d)))
      (boolean (p ++ ["confirmContributorsPermission"])
         (Draft.confirmContributorsPermission d)).

(** Validation of a draft, as the form's resolver runs it. *)
Definition validate (d : Draft.t) : SafeParseReturn MintingFormValues :=
  safeParse HypercertMintSchema d.

End Schema.

(** ** [onSubmit] *)

Record HypercertMetadata := {
  name : string;
  md_description : string;
  image : string;
  external_url : string
}.

(** The object handed to [formatHypercertData]. *)
Record FormatHypercertDataArgs := {
  arg_name : string;
  arg_description : string;
  arg_image : string;
  arg_external_url : string;
  version : string;
  properties : list (string * string);
  impactScope : list string;
  excludedImpactScope : list string;
  workScope : list string;
  excludedWorkScope : list string;
  rights : list string;
  excludedRights : list string;
  workTimeframeStart : JsNumber;
  workTimeframeEnd : JsNumber;
  impactTimeframeStart : JsNumber;
  impactTimeframeEnd : JsNumber;
  arg_contributors : list string
}.

Definition metadata (values : MintingFormValues) : HypercertMetadata :=
  {| name := title values;
     md_description := description values;
     image := cardImage values;
     external_url := link values |}.

(** The argument of the call [formatHypercertData({...metadata, ...})];
    [badges] is the badge list held by the component. *)
Definition formatHypercertData_args (badges : list string)
  (values : MintingFormValues) : FormatHypercertDataArgs :=
  let metadata := metadata values in
  {| arg_name := name metadata;
     arg_description := md_description metadata;
     arg_image := image metadata;
     arg_external_url := external_url metadata;
     version := "2.0";
     properties := [];
     impactScope := ["all"];
     excludedImpactScope := [];
     workScope := badges;
     excludedWorkScope := [];
     rights := ["Public Display"];
     excludedRights := [];
     workTimeframeStart := div1000 (getTime (from (projectDates values)));
     workTimeframeEnd := div1000 (getTime (to (projectDates values)));
     impactTimeframeStart := div1000 (getTime (from (projectDates values)));
     impactTimeframeEnd := div1000 (getTime (to (projectDates values)));
     arg_contributors := contributors values |}.

Section OnSubmit.

(** The formatting routine of the SDK and the type of what it returns. *)
Context {Formatted : Type}.
Variable formatHypercertData : FormatHypercertDataArgs -> Formatted.

(** [onSubmit] returns nothing; its effect is the one line it logs,
    [{ formattedMetadata }]. *)
Definition onSubmit (badges : list string) (values : MintingFormValues)
  : list Formatted :=
  let formattedMetadata :=
    formatHypercertData (formatHypercertData_args badges values) in
  [formattedMetadata].

End OnSubmit.

(** ** Specification-side notions *)

(** [v1] and [v2] differ at most in their work start and end dates. *)
Definition sameExceptWorkDates (v1 v2 : MintingFormValues) : Prop :=
  title v1 = title v2 /\ description v1 = description v2 /\
  link v1 = link v2 /\ cardImage v1 = cardImage v2 /\
  logo v1 = logo v2 /\ banner v1 = banner v2 /\ tags v1 = tags v2 /\
  projectDates v1 = projectDates v2 /\
  contributors v1 = contributors v2 /\
  acceptTerms v1 = acceptTerms v2 /\
  confirmContributorsPermission v1 = confirmContributorsPermission v2.

(** [n] copies of the code unit [c]. *)
Fixpoint repeatUnit (c : ascii) (n : nat) : string :=
  match n with
  | O => EmptyString
  | S k => String c (repeatUnit c k)
  end.

(** "0x" followed by forty times [c]. *)
Definition addressOf (c : ascii) : string :=
  String "0" (String "x" (repeatUnit c 40)).

(** The contributors text of the round-trip example: the address of forty
    'a', then ", ", then the address of forty 'b'. *)
Definition twoContributors : string :=
  String.append (addressOf "a") (String.append ", " (addressOf "b")).

(** A date that [z.date()] accepts when it is given. *)
Definition givenDateValid (d : option Date) : Prop := d <> Some InvalidDate.

(** ** The badge list of the component *)

(** [useState(["Edge Esmeralda", "Edge City"])] *)
Definition initialBadges : list string := ["Edge Esmeralda"; "Edge City"].

(** [form.watch("tags") || ""]; the watched field may be undefined. *)
Definition watchedTags (watched : option string) : string :=
  match watched with
  | Some tags => if nonEmpty tags then tags else ""
  | None => ""
  end.

(** [tags.split(",").map((tag) => tag.trim()).filter((tag) => tag !== "")] *)
Definition tagArray (tags : string) : list string :=
  filter (fun tag => nonEmpty tag)
    (map (fun tag => trim tag) (split "," tags)).

(** The effect that runs when [tags] changes: the badge list it sets. *)
Definition badgesEffect (tags : string) : list string :=
  if nonEmpty tags
  then "Edge Esmeralda" :: "Edge City" :: tagArray tags
  else ["Edge Esmeralda"; "Edge City"].

(** ** Further specification-side notions *)

(** [l1] is [l2] with some elements left out, the order kept. *)
Inductive Subseq {A : Type} : list A -> list A -> Prop :=
| Subseq_nil : Subseq [] []
| Subseq_skip x l1 l2 : Subseq l1 l2 -> Subseq l1 (x :: l2)
| Subseq_keep x l1 l2 : Subseq l1 l2 -> Subseq (x :: l1) (x :: l2).

(** The paths at which the schema can report an issue, in the order of the
    shape. *)
Definition issuePaths : list (list string) :=
  [ ["title"]; ["description"]; ["link"]; ["cardImage"]; ["logo"];
    ["banner"]; ["tags"];
    ["projectDates"; "from"]; ["projectDates"; "to"];
    ["projectDates"; "projectDates"];
    ["workStartDate"]; ["workEndDate"]; ["contributors"] ].

(** The conditions the fields of a draft have to meet, one per field. *)
Definition acceptable (isUrl : string -> bool) (d : Draft.t) : Prop :=
  1 <= String.length (Draft.title d) <= 50 /\
  10 <= String.length (Draft.description d) <= 500 /\
  isUrl (Draft.link d) = true /\
  isUrl (Draft.cardImage d) = true /\
  isUrl (Draft.logo d) = true /\
  isUrl (Draft.banner d) = true /\
  Forall (fun seg => trim seg <> "") (commaSegments (Draft.tags d)) /\
  (exists a b,
     Draft.projectDates d = {| from := ValidDate a; to := ValidDate b |} /\
     (a <= b)%Z) /\
  givenDateValid (Draft.workStartDate d) /\
  givenDateValid (Draft.workEndDate d) /\
  Forall (fun seg => isValidEthereumAddress (trim seg) = true)
         (split ", " (Draft.contributors d)).

(** The values an accepted draft is turned into. *)
Definition validatedOf (d : Draft.t) : MintingFormValues :=
  {| title := Draft.title d;
     description := Draft.description d;
     link := Draft.link d;
     cardImage := Draft.cardImage d;
     logo := Draft.logo d;
     banner := Draft.banner d;
     tags := Draft.tags d;
     projectDates := Draft.projectDates d;
     workStartDate := match Draft.workStartDate d with
                      | Some date => date
                      | None => date_2024_06_02
                      end;
     workEndDate := match Draft.workEndDate d with
                    | Some date => date
                    | None => date_2024_06_30
                    end;
     contributors := map trim (split "," (Draft.contributors d));
     acceptTerms := Draft.acceptTerms d;
     confirmContributorsPermission := Draft.confirmContributorsPermission d |}.

(** The draft [d] with the two acknowledgements set to [terms] and
    [permission]. *)
Definition withAcknowledgements (d : Draft.t) (terms permission : bool)
  : Draft.t :=
  {| Draft.title := Draft.title d;
     Draft.description := Draft.description d;
     Draft.link := Draft.link d;
     Draft.cardImage := Draft.cardImage d;
     Draft.logo := Draft.logo d;
     Draft.banner := Draft.banner d;
     Draft.tags := Draft.tags d;
     Draft.projectDates := Draft.projectDates d;
     Draft.workStartDate := Draft.workStartDate d;
     Draft.workEndDate := Draft.workEndDate d;
     Draft.contributors := Draft.contributors d;
     Draft.acceptTerms := terms;
     Draft.confirmContributorsPermission := permission |}.

(** [v1] and [v2] agree on the fields [onSubmit] reads. *)
Definition sameSubmittedFields (v1 v2 : MintingFormValues) : Prop :=
  title v1 = title v2 /\ description v1 = description v2 /\
  cardImage v1 = cardImage v2 /\ link v1 = link v2 /\
  projectDates v1 = projectDates v2 /\ contributors v1 = contributors v2.

(** ** Sample drafts and values *)

Module Samples.

Definition isUrl (s : string) : bool := prefix "https://" s.

Definition draftWith (description : string) (projectDates : DateRange)
  (workEndDate : option Date) (contributors : string) : Draft.t :=
  {| Draft.title := "Edge Esmeralda Hypercert";
     Draft.description := description;
     Draft.link := "https://voicedeck.org";
     Draft.cardImage := "https://voicedeck.org/card.png";
     Draft.logo := "https://voicedeck.org/logo.png";
     Draft.banner := "https://voicedeck.org/banner.png";
     Draft.tags := "impact, climate";
     Draft.projectDates := projectDates;
     Draft.workStartDate := None;
     Draft.workEndDate := workEndDate;
     Draft.contributors := contributors;
     Draft.acceptTerms := true;
     Draft.confirmContributorsPermission := true |}.

Definition june : DateRange :=
  {| from := date_2024_06_02; to := date_2024_06_30 |}.

Definition juneReversed : DateRange :=
  {| from := date_2024_06_30; to := date_2024_06_02 |}.

(** The draft of the round-trip example. *)
Definition draft : Draft.t :=
  draftWith "Reporting from Edge Esmeralda" june None twoContributors.

(** The same draft with a description of 501 code units. *)
Definition longDescriptionDraft : Draft.t :=
  draftWith (repeatUnit "x" 501) june None twoContributors.

(** The same draft with an invalid date as work end date. *)
Definition invalidWorkEndDraft : Draft.t :=
  draftWith "Reporting from Edge Esmeralda" june (Some InvalidDate)
    twoContributors.

(** The same draft with the project dates the wrong way round. *)
Definition reversedDatesDraft : Draft.t :=
  draftWith "Reporting from Edge Esmeralda" juneReversed None twoContributors.

(** The same draft without contributors. *)
Definition noContributorsDraft : Draft.t :=
  draftWith "Reporting from Edge Esmeralda" june None "".

Definition valuesWith (workStartDate workEndDate : Date) : MintingFormValues :=
  {| title := "Edge Esmeralda Hypercert";
     description := "Reporting from Edge Esmeralda";
     link := "https://voicedeck.org";
     cardImage := "https://voicedeck.org/card.png";
     logo := "https://voicedeck.org/logo.png";
     banner := "https://voicedeck.org/banner.png";
     tags := "impact, climate";
     projectDates := june;
     workStartDate := workStartDate;
     workEndDate := workEndDate;
     contributors := [addressOf "a"; addressOf "b"];
     acceptTerms := true;
     confirmContributorsPermission := true |}.

(** Values with the same title, description, link, card image, project
    dates and contributors, everything else different. *)
Definition otherwiseDifferentValues : MintingFormValues :=
  {| title := "Edge Esmeralda Hypercert";
     description := "Reporting from Edge Esmeralda";
     link := "https://voicedeck.org";
     cardImage := "https://voicedeck.org/card.png";
     logo := "https://example.org/other-logo.png";
     banner := "https://example.org/other-banner.png";
     tags := "journalism";
     projectDates := june;
     workStartDate := ValidDate 0;
     workEndDate := ValidDate 86400000;
     contributors := [addressOf "a"; addressOf "b"];
     acceptTerms := false;
     confirmContributorsPermission := false |}.

End Samples.

(** ** The values held by the form *)

(** The values the form hands to the resolver may lack a field:
    [defaultValues] leaves [cardImage] and [contributors] out, and the date
    picker stores the range it is given, with or without an end. *)
Module FormState.
Record range := { from : option Date; to : option Date }.
Record t := {
  title : option string;
  description : option string;
  link : option string;
  cardImage : option string;
  logo : option string;
  banner : option string;
  tags : option string;
  projectDates : option range;
  workStartDate : option Date;
  workEndDate : option Date;
  contributors : option string;
  acceptTerms : option bool;
  confirmContributorsPermission : option bool
}.
End FormState.

(** A value that may be undefined, for a schema without a default: the
    library reports the type error at the path of the value, with the
    message "Required" unless the schema was given a [required_error], and
    parses no further. *)
Definition required {I O} (required_error : string) (schema : ZodType I O)
  : ZodType (option I) O :=
  fun p x =>
    match x with
    | Some v => schema p v
    | None => ([{| path := p; message := required_error |}], None)
    end.

(** [z.object({ from: z.date(), to: z.date() }, ...)] on a range whose ends
    may be undefined. *)
Definition formRange_object : ZodType FormState.range DateRange :=
  fun p v =>
    field (field (pure Build_DateRange)
             (required "Required" date (p ++ ["from"]) (FormState.from v)))
          (required "Required" date (p ++ ["to"]) (FormState.to v)).

Definition formProjectDates_schema : ZodType (option FormState.range) DateRange :=
  required "Please select a date range"
    (refine formRange_object
       (fun data => le (from data) (to data))
       ["projectDates"]
       "From date must be before to date").

(** [HypercertMintSchema] on the values of the form: the same field schemas,
    each on a value that may be undefined. *)
Definition HypercertMintSchema_form (isUrl : string -> bool)
  : ZodType FormState.t MintingFormValues :=
  fun p d =>
    field (field (field (field (field (field (field (field (field (field
    (field (field (field (pure Build_MintingFormValues)
      (required "Required" title_schema (p ++ ["title"]) (FormState.title d)))
      (required "Required" description_schema (p ++ ["description"])
         (FormState.description d)))
      (required "Required" (link_schema isUrl) (p ++ ["link"])
         (FormState.link d)))
      (required "Required" (cardImage_schema isUrl) (p ++ ["cardImage"])
         (FormState.cardImage d)))
      (required "Required" (logo_schema isUrl) (p ++ ["logo"])
         (FormState.logo d)))
      (required "Required" (banner_schema isUrl) (p ++ ["banner"])
         (FormState.banner d)))
      (required "Required" tags_schema (p ++ ["tags"]) (FormState.tags d)))
      (formProjectDates_schema (p ++ ["projectDates"])
         (FormState.projectDates d)))
      (workStartDate_schema (p ++ ["workStartDate"])
         (FormState.workStartDate d)))
      (workEndDate_schema (p ++ ["workEndDate"]) (FormState.workEndDate d)))
      (required "Required" contributors_schema (p ++ ["contributors"])
         (FormState.contributors d)))
      (required "Required" boolean (p ++ ["acceptTerms"])
         (FormState.acceptTerms d)))
      (required "Required" boolean (p ++ ["confirmContributorsPermission"])
         (FormState.confirmContributorsPermission d)).


(** The [defaultValues] of the form. *)
Definition defaultValues : FormState.t :=
  {| FormState.title := Some "";
     FormState.banner := Some "";
     FormState.description := Some "";
     FormState.logo := Some "";
     FormState.link := Some "";
     FormState.tags := Some "";
     FormState.projectDates :=
       Some {| FormState.from := Some date_2024_06_02;
               FormState.to := Some date_2024_06_30 |};
     FormState.workStartDate := Some date_2024_06_02;
     FormState.workEndDate := Some date_2024_06_30;
     FormState.acceptTerms := Some false;
     FormState.confirmContributorsPermission := Some false;
     FormState.cardImage := None;
     FormState.contributors := None |}.



End Submission.

(* ===================================================================== *)
(** * Properties of the retrieval *)
(* ===================================================================== *)

Module RetrievalProofs.

Import Retrieval.

Section Proofs.

Context {Hypercert : Type}.
Variable endpoint : string.
Variable hyperboardId : string.

Local Abbreviation fetch := (@fetchHypercerts Hypercert endpoint hyperboardId).
Local Abbreviation hyperboardRequest :=
  (Requested endpoint (getHyperboardsByIdQuery hyperboardId)).

(** *** The identifier list *)

Lemma hypercertIdsOf_sections res :
  hypercertIdsOf res =
  match firstHyperboard res with
  | None => None
  | Some board =>
      match firstSection board with
      | None => None
      | Some sec => Some (map entry_id (entries sec))
      end
  end.
Proof.
  unfold hypercertIdsOf, firstHyperboard, firstSection.
  destruct (hyperboards res) as [[[[|board boards]|]]|]; simpl; try reflexivity.
  destruct (sections board) as [[[[|sec secs]|]]|]; reflexivity.
Qed.

Lemma hypercertIdsOf_None res :
  hypercertIdsOf res = None <-> hyperboardMissing res \/ sectionMissing res.
Proof.
  rewrite hypercertIdsOf_sections.
  unfold hyperboardMissing, sectionMissing.
  destruct (firstHyperboard res) as [board|] eqn:Hb.
  - destruct (firstSection board) as [sec|] eqn:Hs; split.
    + discriminate.
    + intros [H | (b & Hb' & Hs')]; [discriminate|].
      injection Hb' as <-. congruence.
    + intros _. right. exists board. split; [reflexivity | assumption].
    + reflexivity.
  - split; [intros _; left|]; reflexivity.
Qed.

Lemma hypercertIdsOf_entries res es :
  entriesAre res es -> hypercertIdsOf res = Some (map entry_id es).
Proof.
  intros (board & sec & Hb & Hs & He).
  rewrite hypercertIdsOf_sections, Hb, Hs, He. reflexivity.
Qed.

(** *** The fan-out *)

Lemma mapM_from_requestHypercert (w : @World Hypercert) ids : forall i,
  mapM_from (requestHypercert endpoint w) i ids =
  (fanOutRequests endpoint ids, inr (fanOutPromises w i ids)).
Proof.
  induction ids as [|id rest IH]; intro i; simpl.
  - reflexivity.
  - rewrite IH. unfold bind, requestHypercert, emit, ret; simpl.
    rewrite app_nil_r. reflexivity.
Qed.

Lemma fanOutRequests_not_empty ids :
  filter isPerIdentifierRequest (fanOutRequests endpoint ids)
  = fanOutRequests endpoint ids.
Proof.
  induction ids as [|id rest IH]; simpl; [reflexivity | now rewrite IH].
Qed.

Lemma fanOutPromises_nth (w : @World Hypercert) ids : forall i k,
  nth_error (fanOutPromises w i ids) k =
  option_map (hypercertsByHypercertId w (i + k)) (nth_error ids k).
Proof.
  induction ids as [|id rest IH]; intros i k.
  - destruct k; reflexivity.
  - destruct k as [|k]; simpl.
    + now rewrite Nat.add_0_r.
    + rewrite IH. now rewrite Nat.add_succ_r.
Qed.

(** *** [Promise.all] *)

Lemma Promise_all_fulfilled {A} (ps : list (Promise A)) vs :
  map outcome ps = map inr vs -> Promise_all_outcome ps = inr vs.
Proof.
  revert vs. induction ps as [|p rest IH]; intros [|v vs] H;
    simpl in *; try discriminate; [reflexivity|].
  injection H as Hp Hrest. rewrite Hp, (IH _ Hrest). reflexivity.
Qed.

Lemma Promise_all_values {A} (ps : list (Promise A)) vs :
  Promise_all_outcome ps = inr vs -> map outcome ps = map inr vs.
Proof.
  revert vs. induction ps as [|p rest IH]; intros vs H; simpl in *.
  - injection H as <-. reflexivity.
  - destruct (outcome p) as [e|v];
      destruct (Promise_all_outcome rest) as [[t e']|vs'].
    + destruct (Nat.leb (settledAt p) t); discriminate.
    + discriminate.
    + discriminate.
    + injection H as <-. simpl. now rewrite (IH vs').
Qed.

(** When [Promise.all] rejects, its reason is the reason of one of the
    promises, and no rejecting promise settles earlier. *)
Lemma Promise_all_rejected {A} (ps : list (Promise A)) t e :
  Promise_all_outcome ps = inl (t, e) ->
  (exists k p, nth_error ps k = Some p /\ outcome p = inl e /\ settledAt p = t)
  /\ (forall p e', In p ps -> outcome p = inl e' -> t <= settledAt p).
Proof.
  revert t e. induction ps as [|p rest IH]; intros t e H; simpl in H.
  - discriminate.
  - destruct (outcome p) as [e0|v] eqn:Hp;
      destruct (Promise_all_outcome rest) as [[t' e']|vs] eqn:Hrest.
    + destruct (IH _ _ eq_refl) as [(k & q & Hk & Hq & Ht) Hmin].
      destruct (Nat.leb (settledAt p) t') eqn:Hle.
      * apply Nat.leb_le in Hle. injection H as <- <-. split.
        -- exists 0, p. repeat split; assumption.
        -- intros q' e'' [<- | Hin] Hq'; [lia|].
           specialize (Hmin _ _ Hin Hq'). lia.
      * apply Nat.leb_gt in Hle. injection H as <- <-. split.
        -- exists (S k), q. repeat split; assumption.
        -- intros q' e'' [<- | Hin] Hq'; [lia|].
           exact (Hmin _ _ Hin Hq').
    + injection H as <- <-. split.
      * exists 0, p. repeat split; assumption.
      * intros q' e'' [<- | Hin] Hq'; [lia|].
        apply Promise_all_values in Hrest.
        apply (in_map outcome) in Hin. rewrite Hrest, Hq' in Hin.
        apply in_map_iff in Hin. destruct Hin as (? & ? & _). discriminate.
    + destruct (IH _ _ H) as [(k & q & Hk & Hq & Ht) Hmin]. split.
      * exists (S k), q. repeat split; assumption.
      * intros q' e'' [<- | Hin] Hq'; [congruence|].
        exact (Hmin _ _ Hin Hq').
    + discriminate.
Qed.

Lemma Promise_all_rejects {A} (ps : list (Promise A)) p e :
  In p ps -> outcome p = inl e ->
  exists t e', Promise_all_outcome ps = inl (t, e').
Proof.
  intros Hin Hp.
  destruct (Promise_all_outcome ps) as [[t e']|vs] eqn:H.
  - eauto.
  - apply Promise_all_values in H.
    apply (in_map outcome) in Hin. rewrite H, Hp in Hin.
    apply in_map_iff in Hin. destruct Hin as (? & ? & _). discriminate.
Qed.

(** *** The execution, case by case *)

Lemma fetchHypercerts_run (w : @World Hypercert) :
  fetch w =
  match outcome (hyperboardsById w hyperboardId) with
  | inl e => ([hyperboardRequest], inr (failureEnvelope e))
  | inr res =>
      match hypercertIdsOf res with
      | None => ([hyperboardRequest], inr (failureEnvelope notFoundError))
      | Some ids =>
          (hyperboardRequest :: Logged "Hypercert IDs" ids
             :: fanOutRequests endpoint ids,
           match Promise_all_outcome (fanOutPromises w 0 ids) with
           | inl (_, e) => inr (failureEnvelope e)
           | inr vs =>
               inr {| data := Some (filter isSome (map firstHypercert vs));
                      error := None |}
           end)
      end
  end.
Proof.
  unfold fetchHypercerts, fetchHypercerts_try, requestHyperboards, await.
  unfold bind at 1 2 3. simpl.
  destruct (outcome (hyperboardsById w hyperboardId)) as [e|res]; simpl.
  - reflexivity.
  - destruct (hypercertIdsOf res) as [ids|]; simpl; [|reflexivity].
    rewrite mapM_from_requestHypercert.
    unfold bind, Promise_all, ret, throw; cbn.
    destruct (Promise_all_outcome (fanOutPromises w 0 ids)) as [[t e]|vs];
      cbn; rewrite ?app_nil_r; reflexivity.
Qed.

Lemma firstHypercert_firstRecord (r : option (HypercertsResponse Hypercert)) :
  firstHypercert r = firstRecord r.
Proof.
  destruct r as [[[[[[|record l]|]]|]]|]; reflexivity.
Qed.

Lemma filter_isSome_all {A} (l : list (option A)) :
  Forall (fun r => r <> None) (filter isSome l).
Proof.
  induction l as [|[a|] l IH]; simpl; auto.
  constructor; [discriminate | assumption].
Qed.

(** Aggregation over a fan-out in which every request fulfils. *)
Lemma fanOut_all_fulfilled (w : @World Hypercert) reply ids : forall i,
  (forall k id, nth_error ids k = Some id ->
     outcome (hypercertsByHypercertId w (i + k) id) = inr (reply (i + k) id)) ->
  exists vs,
    Promise_all_outcome (fanOutPromises w i ids) = inr vs /\
    filter isSome (map firstHypercert vs)
    = map Some (survivingRecords reply i ids).
Proof.
  induction ids as [|id rest IH]; intros i Hall.
  - exists []. split; reflexivity.
  - destruct (IH (S i)) as (vs & Hvs & Hfilter).
    { intros k id' Hk. replace (S i + k) with (i + S k) by lia.
      apply Hall. exact Hk. }
    pose proof (Hall 0 id eq_refl) as Hhead. rewrite Nat.add_0_r in Hhead.
    exists (reply i id :: vs). split.
    + simpl. rewrite Hhead, Hvs. reflexivity.
    + simpl. rewrite firstHypercert_firstRecord.
      destruct (firstRecord (reply i id)); simpl; now rewrite Hfilter.
Qed.

(** ** The claims *)

(** C1 (amended). When the hyperboard response has no hyperboard or no
    section, [fetchHypercerts] returns the failure envelope carrying the
    fixed "not found" error; when the entries list is there but empty, it
    returns the success envelope with an empty record list. In all three
    cases no per-identifier request is issued. *)
Theorem fetchHypercerts_no_identifiers (w : @World Hypercert) res :
  outcome (hyperboardsById w hyperboardId) = inr res ->
  (hyperboardMissing res \/ sectionMissing res ->
     snd (fetch w) = inr (failureEnvelope notFoundError) /\
     message notFoundError = "No hypercert IDs found (status code: 404)")
  /\ (entriesAre res [] ->
        snd (fetch w) = inr {| data := Some []; error := None |})
  /\ (hyperboardMissing res \/ sectionMissing res \/ entriesAre res [] ->
        filter isPerIdentifierRequest (fst (fetch w)) = []).
Proof.
  intros Hres. rewrite fetchHypercerts_run, Hres.
  split; [|split].
  - intros Hmiss. apply hypercertIdsOf_None in Hmiss. rewrite Hmiss.
    split; reflexivity.
  - intros Hempty. apply hypercertIdsOf_entries in Hempty. rewrite Hempty.
    reflexivity.
  - intros [Hmiss | [Hmiss | Hempty]].
    + rewrite (proj2 (hypercertIdsOf_None res) (or_introl Hmiss)). reflexivity.
    + rewrite (proj2 (hypercertIdsOf_None res) (or_intror Hmiss)). reflexivity.
    + rewrite (hypercertIdsOf_entries _ _ Hempty). reflexivity.
Qed.

(** C2 (amended). Whenever an exception is raised during an execution -- the
    hyperboard request rejects, the identifier list is missing, or a
    per-identifier request rejects -- [fetchHypercerts] does not raise: it
    returns the failure envelope, without a record list, carrying that
    error; when several per-identifier requests reject, the error carried
    is that of the first of them to reject. *)
Theorem fetchHypercerts_failure (w : @World Hypercert) e :
  Raised hyperboardId w e ->
  exists t e',
    fetch w = (t, inr {| data := None; error := Some e' |}) /\
    Raised hyperboardId w e' /\
    (e' = e \/
     exists res ids j,
       outcome (hyperboardsById w hyperboardId) = inr res /\
       hypercertIdsOf res = Some ids /\
       firstToReject w ids j e').
Proof.
  intros Hraised. rewrite fetchHypercerts_run.
  destruct Hraised as [e Hrej | res Hres Hids | res ids i id e Hres Hids Hi Hrej].
  - rewrite Hrej. do 2 eexists. split; [reflexivity|]. split; [|now left].
    now apply hyperboard_request_rejected.
  - rewrite Hres, Hids. do 2 eexists. split; [reflexivity|]. split; [|now left].
    now apply identifier_list_missing with res.
  - rewrite Hres, Hids.
    assert (Hin : In (hypercertsByHypercertId w i id) (fanOutPromises w 0 ids)).
    { apply nth_error_In with i. rewrite fanOutPromises_nth, Hi. reflexivity. }
    destruct (Promise_all_rejects _ _ _ Hin Hrej) as (t & e' & Hall).
    rewrite Hall.
    destruct (Promise_all_rejected _ _ _ Hall) as [(k & p & Hk & Hp & Ht) Hmin].
    rewrite fanOutPromises_nth in Hk.
    destruct (nth_error ids k) as [id'|] eqn:Hid'; [|discriminate].
    injection Hk as <-.
    do 2 eexists. split; [reflexivity|]. split.
    + now apply identifier_request_rejected with res ids k id'.
    + right. exists res, ids, k. repeat split; try assumption.
      exists id'. repeat split; try assumption.
      intros i0 id0 e0 Hi0 Hrej0. simpl in Ht. rewrite Ht.
      apply Hmin with e0; [|assumption].
      apply nth_error_In with i0. rewrite fanOutPromises_nth, Hi0. reflexivity.
Qed.

(** C3. [fetchHypercerts] always returns, and what it returns is either a
    success envelope (only [data] present, holding records) or a failure
    envelope (only [error] present); never both. *)
Theorem fetchHypercerts_envelope (w : @World Hypercert) :
  exists t env,
    fetch w = (t, inr env) /\
    ((exists records,
        data env = Some records /\ error env = None /\
        Forall (fun r => r <> None) records)
     \/ (exists e, data env = None /\ error env = Some e)).
Proof.
  rewrite fetchHypercerts_run.
  destruct (outcome (hyperboardsById w hyperboardId)) as [e|res].
  - do 2 eexists. split; [reflexivity|]. right. eexists. split; reflexivity.
  - destruct (hypercertIdsOf res) as [ids|].
    + destruct (Promise_all_outcome (fanOutPromises w 0 ids)) as [[t e]|vs].
      * do 2 eexists. split; [reflexivity|]. right. eexists. split; reflexivity.
      * do 2 eexists. split; [reflexivity|]. left. eexists.
        repeat split. apply filter_isSome_all.
    + do 2 eexists. split; [reflexivity|]. right. eexists. split; reflexivity.
Qed.

(** C4. When the hyperboard response has an entries list and every
    per-identifier request fulfils, [fetchHypercerts] returns the success
    envelope whose records are, in the order of the identifier list, the
    first records of the per-identifier responses, the identifiers without
    a first record left out. One request per identifier is issued, in the
    order of the list. *)
Theorem fetchHypercerts_success (w : @World Hypercert) res es reply :
  outcome (hyperboardsById w hyperboardId) = inr res ->
  entriesAre res es ->
  (forall i id, nth_error (map entry_id es) i = Some id ->
     outcome (hypercertsByHypercertId w i id) = inr (reply i id)) ->
  fetch w =
  (hyperboardRequest :: Logged "Hypercert IDs" (map entry_id es)
     :: fanOutRequests endpoint (map entry_id es),
   inr {| data := Some (map Some (survivingRecords reply 0 (map entry_id es)));
          error := None |}).
Proof.
  intros Hres Hentries Hall.
  rewrite fetchHypercerts_run, Hres, (hypercertIdsOf_entries _ _ Hentries).
  destruct (fanOut_all_fulfilled w reply (map entry_id es) 0 Hall)
    as (vs & Hvs & Hfilter).
  rewrite Hvs, Hfilter. reflexivity.
Qed.

End Proofs.

(** C1, as stated, fails on an empty entries list: the identifier list is
    then the empty list, which is not a missing one, and the result is the
    success envelope with no records. *)
Lemma fetchHypercerts_empty_entries_counterexample :
  outcome (hyperboardsById Samples.emptyBoardWorld "board") = inr (Samples.boardWith [])
  /\ entriesAre (Samples.boardWith []) []
  /\ snd (fetchHypercerts "https://api/graphql" "board" Samples.emptyBoardWorld)
     = inr {| data := Some []; error := None |}
  /\ snd (fetchHypercerts "https://api/graphql" "board" Samples.emptyBoardWorld)
     <> inr (failureEnvelope notFoundError).
Proof.
  repeat split.
  - exists {| sections := Some {| sections_data := Some [ {| entries := [] |} ] |} |},
           {| entries := [] |}.
    repeat split.
  - discriminate.
Qed.

Lemma fetchHypercerts_no_identifiers_witness :
  snd (fetchHypercerts "https://api/graphql" "board" Samples.noBoardWorld)
  = inr (failureEnvelope notFoundError)
  /\ message notFoundError = "No hypercert IDs found (status code: 404)".
Proof.
  apply (fetchHypercerts_no_identifiers "https://api/graphql" "board"
           Samples.noBoardWorld Samples.noBoard eq_refl).
  left. reflexivity.
Defined.

(** C2, as stated, fails when two per-identifier requests reject: both
    errors are raised, and the envelope carries only the one that is raised
    first in time, here the error of the third request and not that of the
    first. *)
Lemma fetchHypercerts_failure_counterexample :
  Raised "board" Samples.twoRejectionsWorld Samples.firstError
  /\ Raised "board" Samples.twoRejectionsWorld Samples.thirdError
  /\ snd (fetchHypercerts "https://api/graphql" "board"
            Samples.twoRejectionsWorld)
     = inr {| data := None; error := Some Samples.thirdError |}
  /\ snd (fetchHypercerts "https://api/graphql" "board"
            Samples.twoRejectionsWorld)
     <> inr {| data := None; error := Some Samples.firstError |}.
Proof.
  split; [|split; [|split]].
  - apply identifier_request_rejected
      with (res := Samples.boardWith [ {| entry_id := "a" |};
                                       {| entry_id := "b" |};
                                       {| entry_id := "c" |} ])
           (ids := ["a"; "b"; "c"]) (i := 0) (id := "a");
      reflexivity.
  - apply identifier_request_rejected
      with (res := Samples.boardWith [ {| entry_id := "a" |};
                                       {| entry_id := "b" |};
                                       {| entry_id := "c" |} ])
           (ids := ["a"; "b"; "c"]) (i := 2) (id := "c");
      reflexivity.
  - reflexivity.
  - discriminate.
Qed.

Lemma fetchHypercerts_failure_witness :
  exists t e',
    fetchHypercerts "https://api/graphql" "board" Samples.rejectingWorld
    = (t, inr {| data := None; error := Some e' |}) /\
    Raised "board" Samples.rejectingWorld e' /\
    (e' = Samples.timedOut \/
     exists res ids j,
       outcome (hyperboardsById Samples.rejectingWorld "board") = inr res /\
       hypercertIdsOf res = Some ids /\
       firstToReject Samples.rejectingWorld ids j e').
Proof.
  apply (fetchHypercerts_failure "https://api/graphql" "board"
           Samples.rejectingWorld Samples.timedOut).
  apply identifier_request_rejected
    with (res := Samples.boardWith [ {| entry_id := "a" |};
                                     {| entry_id := "b" |};
                                     {| entry_id := "c" |} ])
         (ids := ["a"; "b"; "c"]) (i := 1) (id := "b");
    reflexivity.
Defined.

Lemma fetchHypercerts_success_witness :
  fetchHypercerts "https://api/graphql" "board" Samples.threeEntriesWorld =
  ([ Requested "https://api/graphql" (getHyperboardsByIdQuery "board");
     Logged "Hypercert IDs" ["a"; "b"; "c"];
     Requested "https://api/graphql" (getHypercertsByHypercertIdQuery "a");
     Requested "https://api/graphql" (getHypercertsByHypercertIdQuery "b");
     Requested "https://api/graphql" (getHypercertsByHypercertIdQuery "c") ],
   inr {| data := Some [Some "a"; Some "c"]; error := None |}).
Proof.
  apply (fetchHypercerts_success "https://api/graphql" "board"
           Samples.threeEntriesWorld
           (Samples.boardWith [ {| entry_id := "a" |};
                                {| entry_id := "b" |};
                                {| entry_id := "c" |} ])
           [ {| entry_id := "a" |}; {| entry_id := "b" |}; {| entry_id := "c" |} ]
           Samples.threeEntriesReply).
  - reflexivity.
  - exists {| sections := Some {| sections_data := Some
              [ {| entries := [ {| entry_id := "a" |}; {| entry_id := "b" |};
                                {| entry_id := "c" |} ] |} ] |} |},
           {| entries := [ {| entry_id := "a" |}; {| entry_id := "b" |};
                           {| entry_id := "c" |} ] |}.
    repeat split.
  - intros i id _. reflexivity.
Defined.

End RetrievalProofs.

(* ===================================================================== *)
(** * Properties of strings *)
(* ===================================================================== *)

Module JsStringProofs.

Import JsString.

Lemma append_empty_r (s : string) : String.append s EmptyString = s.
Proof.
  induction s as [|c s IH]; simpl; [reflexivity | now rewrite IH].
Qed.

Lemma append_unit (cur seg : string) (c : ascii) :
  String.append (String.append cur (String c EmptyString)) seg
  = String.append cur (String c seg).
Proof.
  induction cur as [|a cur IH]; simpl; [reflexivity | now rewrite IH].
Qed.

Lemma commaSegments_cons (s : string) :
  exists seg segs, commaSegments s = seg :: segs.
Proof.
  destruct s as [|c rest]; simpl.
  - eauto.
  - destruct (Ascii.eqb c ","); [eauto|].
    destruct (commaSegments rest); eauto.
Qed.

(** The segments, joined by commas, are the string again. *)
Lemma concat_commaSegments (s : string) :
  String.concat "," (commaSegments s) = s.
Proof.
  induction s as [|c rest IH]; simpl; [reflexivity|].
  destruct (commaSegments_cons rest) as (seg & segs & Hrest).
  rewrite Hrest in *.
  destruct (Ascii.eqb c ",") eqn:Hc.
  - apply Ascii.eqb_eq in Hc. subst c. simpl in *. now rewrite IH.
  - destruct segs as [|seg' segs]; simpl in *; now rewrite IH.
Qed.

(** No segment contains a comma. *)
Lemma commaSegments_comma_free (s : string) :
  Forall (fun seg => hasComma seg = false) (commaSegments s).
Proof.
  induction s as [|c rest IH]; simpl.
  - repeat constructor.
  - destruct (Ascii.eqb c ",") eqn:Hc.
    + constructor; [reflexivity | assumption].
    + destruct (commaSegments rest) as [|seg segs].
      * repeat constructor. simpl. now rewrite Hc.
      * inversion IH; subst. constructor; [|assumption].
        simpl. now rewrite Hc.
Qed.

Lemma prefix_comma (c : ascii) (rest : string) :
  prefix "," (String c rest) = Ascii.eqb c ",".
Proof.
  change (prefix "," (String c rest))
    with (if ascii_dec "," c then prefix EmptyString rest else false).
  destruct (ascii_dec "," c) as [<- | Hne].
  - destruct rest; reflexivity.
  - symmetry. apply Ascii.eqb_neq. congruence.
Qed.

Lemma splitFrom_comma (s : string) : forall cur,
  splitFrom "," 0 cur s =
  match commaSegments s with
  | seg :: segs => String.append cur seg :: segs
  | [] => [cur]
  end.
Proof.
  induction s as [|c rest IH]; intro cur.
  - simpl. now rewrite append_empty_r.
  - cbn [splitFrom]. rewrite prefix_comma. cbn [commaSegments].
    destruct (commaSegments_cons rest) as (seg & segs & Hrest).
    destruct (Ascii.eqb c ",").
    + cbn [String.length Nat.sub]. rewrite IH, Hrest. simpl.
      now rewrite append_empty_r.
    + rewrite IH, Hrest. now rewrite append_unit.
Qed.

(** [s.split(",")] yields the segments of [s] between its commas. *)
Lemma split_comma (s : string) : split "," s = commaSegments s.
Proof.
  unfold split. rewrite splitFrom_comma.
  destruct (commaSegments_cons s) as (seg & segs & ->). reflexivity.
Qed.

Lemma trimStart_empty (s : string) :
  trimStart s = EmptyString <-> hasVisibleCodeUnit s = false.
Proof.
  induction s as [|c rest IH]; simpl.
  - split; reflexivity.
  - destruct (isWhiteSpace c); simpl; [exact IH|].
    split; discriminate.
Qed.

Lemma hasVisibleCodeUnit_trimEnd (s : string) :
  hasVisibleCodeUnit (trimEnd s) = hasVisibleCodeUnit s.
Proof.
  induction s as [|c rest IH]; simpl; [reflexivity|].
  destruct (trimEnd rest) as [|a t] eqn:Ht.
  - rewrite <- IH. destruct (isWhiteSpace c) eqn:Hc; simpl; rewrite ?Hc; reflexivity.
  - rewrite <- IH. reflexivity.
Qed.

(** A string is non-empty after trimming exactly when it has a code unit
    that is not white space. *)
Lemma trim_nonEmpty (s : string) :
  nonEmpty (trim s) = hasVisibleCodeUnit s.
Proof.
  unfold trim. rewrite <- hasVisibleCodeUnit_trimEnd.
  destruct (hasVisibleCodeUnit (trimEnd s)) eqn:Hv.
  - destruct (trimStart (trimEnd s)) eqn:Ht; [|reflexivity].
    apply trimStart_empty in Ht. congruence.
  - apply trimStart_empty in Hv. now rewrite Hv.
Qed.

Lemma nonEmpty_true (s : string) : nonEmpty s = true <-> s <> EmptyString.
Proof.
  destruct s; simpl; split; congruence.
Qed.

End JsStringProofs.

(* ===================================================================== *)
(** * Properties of the validation library *)
(* ===================================================================== *)

Module ZodProofs.

Import JsDate Zod.

Lemma safeParse_success {I O} (schema : ZodType I O) x v :
  safeParse schema x = success v <-> schema [] x = ([], Some v).
Proof.
  unfold safeParse.
  destruct (schema [] x) as [[|i0 more] [v'|]]; split; intro H;
    try discriminate; congruence.
Qed.

Lemma safeParse_failure {I O} (schema : ZodType I O) x :
  fst (schema [] x) <> [] \/ snd (schema [] x) = None ->
  safeParse schema x = failure (fst (schema [] x)).
Proof.
  unfold safeParse.
  destruct (schema [] x) as [[|i0 more] [v'|]]; simpl; intros [H | H];
    try reflexivity; try discriminate; now elim H.
Qed.

Lemma field_issues {A B} (acc : ParseReturn (A -> B)) (r : ParseReturn A) :
  fst (field acc r) = fst acc ++ fst r.
Proof. reflexivity. Qed.

Lemma field_value {A B} (acc : ParseReturn (A -> B)) (r : ParseReturn A) v :
  snd (field acc r) = Some v ->
  exists f a, snd acc = Some f /\ snd r = Some a /\ v = f a.
Proof.
  unfold field; simpl.
  destruct (snd acc) as [f|]; [|discriminate].
  destruct (snd r) as [a|]; [|discriminate].
  intros [= <-]. eauto.
Qed.

Lemma field_valid {A B} (acc : ParseReturn (A -> B)) (r : ParseReturn A) f a :
  acc = ([], Some f) -> r = ([], Some a) -> field acc r = ([], Some (f a)).
Proof. intros -> ->. reflexivity. Qed.

Lemma string__valid checks p s :
  Forall (fun chk : StringCheck => chk s = None) checks ->
  string_ checks p s = ([], Some s).
Proof.
  intros H. unfold string_. f_equal.
  induction H as [|chk checks Hchk _ IH]; simpl; [reflexivity|].
  now rewrite Hchk, IH.
Qed.

Lemma string__value checks p s : snd (string_ checks p s) = Some s.
Proof. reflexivity. Qed.

Lemma string__paths checks p s :
  Forall (fun i => path i = p) (fst (string_ checks p s)).
Proof.
  unfold string_; simpl.
  induction checks as [|chk checks IH]; simpl; [constructor|].
  destruct (chk s); simpl; [constructor|]; auto.
Qed.

Lemma date_paths p d : Forall (fun i => path i = p) (fst (date p d)).
Proof.
  destruct d; simpl; repeat constructor.
Qed.

Lemma refine_paths {I O} (schema : ZodType I O) check rel msg p x
  (P : ZodIssue -> Prop) :
  Forall P (fst (schema p x)) ->
  P {| path := p ++ rel; message := msg |} ->
  Forall P (fst (refine schema check rel msg p x)).
Proof.
  intros Hinner Hnew. unfold refine.
  destruct (schema p x) as [issues [v|]]; simpl in *; [|assumption].
  destruct (check v); simpl; [assumption|].
  apply Forall_app. split; [assumption | repeat constructor; assumption].
Qed.

Lemma transform_issues {I O O'} (schema : ZodType I O) (f : O -> O') p x :
  fst (transform schema f p x) = fst (schema p x).
Proof.
  unfold transform. destruct (schema p x) as [[|i0 more] [v|]]; reflexivity.
Qed.

Lemma transform_value {I O O'} (schema : ZodType I O) (f : O -> O') p x v' :
  snd (transform schema f p x) = Some v' ->
  exists v, schema p x = ([], Some v) /\ v' = f v.
Proof.
  unfold transform. destruct (schema p x) as [[|i0 more] [v|]]; simpl;
    try discriminate.
  intros [= <-]. eauto.
Qed.

Lemma refine_valid {I O} (schema : ZodType I O) check rel msg p x v :
  refine schema check rel msg p x = ([], Some v) ->
  schema p x = ([], Some v) /\ check v = true.
Proof.
  unfold refine. destruct (schema p x) as [issues [v0|]]; [|discriminate].
  destruct (check v0) eqn:Hc.
  - intros [= -> ->]. split; [reflexivity | assumption].
  - intros [= H _]. destruct issues; discriminate.
Qed.

End ZodProofs.

(* ===================================================================== *)
(** * Properties of the submission schema and of [onSubmit] *)
(* ===================================================================== *)

Module SubmissionProofs.

Import JsString JsDate Zod Submission JsStringProofs ZodProofs.

Section Proofs.

Variable isUrl : string -> bool.

(** *** The fields one by one *)

Lemma title_schema_example p :
  title_schema p "Edge Esmeralda Hypercert"
  = ([], Some "Edge Esmeralda Hypercert").
Proof. reflexivity. Qed.

Lemma description_schema_valid p s :
  10 <= String.length s <= 500 -> description_schema p s = ([], Some s).
Proof.
  intros [Hmin Hmax]. apply string__valid.
  repeat constructor; unfold min, max.
  - destruct (Nat.ltb_spec (String.length s) 10); [lia | reflexivity].
  - destruct (Nat.ltb_spec 500 (String.length s)); [lia | reflexivity].
Qed.

Lemma url_schema_valid msg p s :
  isUrl s = true -> string_ [url isUrl msg] p s = ([], Some s).
Proof.
  intros H. apply string__valid. repeat constructor. unfold url.
  now rewrite H.
Qed.

Lemma tags_schema_run p val :
  tags_schema p val =
  if forallb (fun seg => nonEmpty (trim seg)) (commaSegments val)
  then ([], Some val)
  else ([{| path := p;
            message := "Tags must must not be empty, Multiple tags must be separated by commas" |}],
        Some val).
Proof.
  unfold tags_schema, refine, every. cbn [string_ flat_map].
  rewrite split_comma, app_nil_r. reflexivity.
Qed.

Lemma projectDates_schema_valid p r :
  le (from r) (to r) = true -> projectDates_schema p r = ([], Some r).
Proof.
  destruct r as [[a|] [b|]]; simpl; try discriminate.
  intros H. unfold projectDates_schema, refine. simpl. now rewrite H.
Qed.

Lemma projectDates_schema_reversed p r :
  gt (from r) (to r) = true ->
  projectDates_schema p r =
  ([{| path := p ++ ["projectDates"];
       message := "From date must be before to date" |}], Some r).
Proof.
  destruct r as [[a|] [b|]]; simpl; try discriminate.
  intros H. apply Z.ltb_lt in H.
  unfold projectDates_schema, refine. simpl.
  destruct (Z.leb_spec a b); [lia | reflexivity].
Qed.

Lemma projectDates_schema_inv p r v :
  projectDates_schema p r = ([], Some v) ->
  v = r /\ exists a b,
    from r = ValidDate a /\ to r = ValidDate b /\ (a <= b)%Z.
Proof.
  intros H. apply refine_valid in H. destruct H as [Hobj Hle].
  destruct r as [[a|] [b|]]; try discriminate.
  injection Hobj as <-. split; [reflexivity|].
  exists a, b. simpl in Hle. apply Z.leb_le in Hle. auto.
Qed.

Lemma default_date_valid dflt p d :
  givenDateValid d ->
  exists ms,
    match d with Some v => v | None => ValidDate dflt end = ValidDate ms /\
    default date (ValidDate dflt) p d = ([], Some (ValidDate ms)).
Proof.
  unfold givenDateValid, default.
  destruct d as [[ms|]|]; intros H.
  - exists ms. split; reflexivity.
  - now elim H.
  - exists dflt. split; reflexivity.
Qed.

Lemma contributors_schema_example p :
  contributors_schema p twoContributors
  = ([], Some [addressOf "a"; addressOf "b"]).
Proof. reflexivity. Qed.

Lemma contributors_schema_empty p :
  contributors_schema p "" =
  ([{| path := p;
       message := "Each value must be a valid Ethereum address separated by a comma and a space." |}],
   None).
Proof.
  unfold contributors_schema, transform, refine. simpl.
  now rewrite app_nil_r.
Qed.

Lemma contributors_schema_inv p s l :
  snd (contributors_schema p s) = Some l ->
  l = map trim (split "," s) /\
  forallb isValidEthereumAddress (map trim (split ", " s)) = true.
Proof.
  intros H. apply transform_value in H. destruct H as (v & Hv & ->).
  apply refine_valid in Hv. destruct Hv as [Hs Hcheck].
  injection Hs as <-. split; [reflexivity | exact Hcheck].
Qed.

(** *** The issues of the whole schema, field by field *)

Lemma HypercertMintSchema_issues d :
  fst (HypercertMintSchema isUrl [] d) =
  fst (title_schema ["title"] (Draft.title d))
  ++ fst (description_schema ["description"] (Draft.description d))
  ++ fst (link_schema isUrl ["link"] (Draft.link d))
  ++ fst (cardImage_schema isUrl ["cardImage"] (Draft.cardImage d))
  ++ fst (logo_schema isUrl ["logo"] (Draft.logo d))
  ++ fst (banner_schema isUrl ["banner"] (Draft.banner d))
  ++ fst (tags_schema ["tags"] (Draft.tags d))
  ++ fst (projectDates_schema ["projectDates"] (Draft.projectDates d))
  ++ fst (workStartDate_schema ["workStartDate"] (Draft.workStartDate d))
  ++ fst (workEndDate_schema ["workEndDate"] (Draft.workEndDate d))
  ++ fst (contributors_schema ["contributors"] (Draft.contributors d)).
Proof.
  unfold HypercertMintSchema. rewrite !field_issues.
  cbn [pure boolean fst app]. rewrite !app_nil_r, <- !app_assoc.
  reflexivity.
Qed.

Lemma validate_failure d i :
  In i (fst (HypercertMintSchema isUrl [] d)) ->
  validate isUrl d = failure (fst (HypercertMintSchema isUrl [] d)).
Proof.
  intros Hin. apply safeParse_failure. left. intros E.
  rewrite E in Hin. destruct Hin.
Qed.

Lemma refine_value {I O} (schema : ZodType I O) check rel msg p x v :
  snd (refine schema check rel msg p x) = Some v -> snd (schema p x) = Some v.
Proof.
  unfold refine. destruct (schema p x) as [issues [v0|]]; [|discriminate].
  destruct (check v0); simpl; auto.
Qed.

Ltac split_field H :=
  let f := fresh "f" in
  let a := fresh "a" in
  let Ha := fresh "Ha" in
  let Hv := fresh "Hv" in
  apply field_value in H; destruct H as (f & a & H & Ha & Hv); subst.

(** What a successful validation says about the draft. *)
Lemma validate_success_inv d v :
  validate isUrl d = success v ->
  title v = Draft.title d /\ description v = Draft.description d /\
  link v = Draft.link d /\ cardImage v = Draft.cardImage d /\
  logo v = Draft.logo d /\ banner v = Draft.banner d /\
  tags v = Draft.tags d /\
  projectDates v = Draft.projectDates d /\
  contributors v = map trim (split "," (Draft.contributors d)) /\
  acceptTerms v = Draft.acceptTerms d /\
  confirmContributorsPermission v = Draft.confirmContributorsPermission d /\
  exists a b,
    projectDates v = {| from := ValidDate a; to := ValidDate b |} /\
    (a <= b)%Z.
Proof.
  intros H. apply safeParse_success in H.
  assert (Hissues : fst (HypercertMintSchema isUrl [] d) = [])
    by now rewrite H.
  assert (Hvalue : snd (HypercertMintSchema isUrl [] d) = Some v)
    by now rewrite H.
  clear H.
  rewrite HypercertMintSchema_issues in Hissues.
  repeat (apply app_eq_nil in Hissues;
          let H := fresh "Hnil" in destruct Hissues as [H Hissues]).
  unfold HypercertMintSchema in Hvalue.
  do 13 split_field Hvalue.
  injection Hvalue as <-. cbn [app] in *.
  unfold title_schema, description_schema, link_schema, cardImage_schema,
    logo_schema, banner_schema in *.
  repeat match goal with
         | H : snd (boolean _ _) = Some _ |- _ => injection H as <-
         | H : snd (string_ _ _ _) = Some _ |- _ => injection H as <-
         | H : snd (tags_schema _ _) = Some _ |- _ =>
             apply refine_value in H; injection H as <-
         end.
  match goal with
  | H : snd (contributors_schema _ _) = Some _ |- _ =>
      apply contributors_schema_inv in H; destruct H as [-> _]
  end.
  match goal with
  | H : snd (projectDates_schema ?p ?r) = Some ?x,
    H' : fst (projectDates_schema ?p ?r) = [] |- _ =>
      assert (Hpd : projectDates_schema p r = ([], Some x))
        by (rewrite <- H, <- H'; apply surjective_pairing);
      apply projectDates_schema_inv in Hpd;
      destruct Hpd as (-> & a' & b' & Hfrom & Hto & Hle)
  end.
  cbn. repeat split.
  exists a', b'. split; [|assumption].
  destruct (Draft.projectDates d) as [df dt]. simpl in *. congruence.
Qed.

(** ** The claims *)

(** C5 (amended). A draft with the title "Edge Esmeralda Hypercert", a
    description of at least 10 and at most 500 characters, well-formed
    URLs as link, logo, banner and card image, the tags "impact, climate",
    project dates with from <= to, work dates that are left out or valid,
    and the two-address contributors text validates, and the validated
    contributors are exactly the two addresses, trimmed and well-formed,
    in the order of the input. *)
Theorem validate_round_trip d :
  Draft.title d = "Edge Esmeralda Hypercert" ->
  10 <= String.length (Draft.description d) <= 500 ->
  isUrl (Draft.link d) = true ->
  isUrl (Draft.logo d) = true ->
  isUrl (Draft.banner d) = true ->
  isUrl (Draft.cardImage d) = true ->
  Draft.tags d = "impact, climate" ->
  le (from (Draft.projectDates d)) (to (Draft.projectDates d)) = true ->
  givenDateValid (Draft.workStartDate d) ->
  givenDateValid (Draft.workEndDate d) ->
  Draft.contributors d = twoContributors ->
  exists v,
    validate isUrl d = success v /\
    contributors v = [addressOf "a"; addressOf "b"] /\
    Forall (fun address =>
              isValidEthereumAddress address = true /\ trim address = address)
           (contributors v).
Proof.
  intros Htitle Hdesc Hlink Hlogo Hbanner Hcard Htags Hdates Hstart Hend Hcontr.
  destruct (default_date_valid 1717286400000 ["workStartDate"] _ Hstart)
    as (s & _ & Hs).
  destruct (default_date_valid 1719705600000 ["workEndDate"] _ Hend)
    as (e & _ & He).
  eexists. split; [|split].
  - apply safeParse_success. unfold HypercertMintSchema.
    repeat (apply field_valid); try reflexivity.
    + rewrite Htitle. apply title_schema_example.
    + apply description_schema_valid, Hdesc.
    + apply url_schema_valid, Hlink.
    + apply url_schema_valid, Hcard.
    + apply url_schema_valid, Hlogo.
    + apply url_schema_valid, Hbanner.
    + rewrite Htags. reflexivity.
    + apply projectDates_schema_valid, Hdates.
    + exact Hs.
    + exact He.
    + rewrite Hcontr. apply contributors_schema_example.
  - reflexivity.
  - repeat constructor.
Qed.

(** C6. When the project dates of a draft have from > to, validation
    fails whatever the other fields are, and reports "From date must be
    before to date" -- at the path [projectDates.projectDates]: the path
    given to the refinement is appended to the path of the field. No issue
    is reported at the path [projectDates] itself. *)
Theorem projectDates_reversed_issue d :
  gt (from (Draft.projectDates d)) (to (Draft.projectDates d)) = true ->
  exists issues,
    validate isUrl d = failure issues /\
    In {| path := ["projectDates"; "projectDates"];
          message := "From date must be before to date" |} issues /\
    Forall (fun i => path i <> ["projectDates"]) issues.
Proof.
  intros Hgt.
  pose proof (projectDates_schema_reversed ["projectDates"] _ Hgt) as Hpd.
  assert (Hin : In {| path := ["projectDates"; "projectDates"];
                      message := "From date must be before to date" |}
                   (fst (HypercertMintSchema isUrl [] d))).
  { rewrite HypercertMintSchema_issues, Hpd.
    do 7 (apply in_or_app; right). apply in_or_app. left. now left. }
  eexists. split; [exact (validate_failure _ _ Hin) | split; [exact Hin|]].
  rewrite HypercertMintSchema_issues, Hpd.
  assert (Hstr : forall checks name s,
             name <> "projectDates" ->
             Forall (fun i => path i <> ["projectDates"])
                    (fst (string_ checks [name] s))).
  { intros checks name s Hname.
    eapply Forall_impl; [|apply string__paths].
    intros i ->. congruence. }
  assert (Hdate : forall name dflt x,
             name <> "projectDates" ->
             Forall (fun i => path i <> ["projectDates"])
                    (fst (default date dflt [name] x))).
  { intros name dflt x Hname. unfold default.
    eapply Forall_impl; [|apply date_paths].
    intros i ->. congruence. }
  repeat match goal with
         | |- Forall _ (_ ++ _) => apply Forall_app; split
         end;
    try (apply Hstr; discriminate);
    try (apply Hdate; discriminate).
  - apply refine_paths; [apply Hstr|]; discriminate.
  - repeat constructor. discriminate.
  - unfold contributors_schema. rewrite transform_issues.
    apply refine_paths; [apply Hstr|]; discriminate.
Qed.

(** C7. The schema accepts a tags string exactly when every segment
    between its commas is non-empty after trimming. *)
Theorem tags_accepted_iff val :
  safeParse tags_schema val = success val <->
  Forall (fun seg => trim seg <> "") (commaSegments val).
Proof.
  rewrite safeParse_success, tags_schema_run, Forall_forall.
  destruct (forallb (fun seg => nonEmpty (trim seg)) (commaSegments val))
    eqn:Hall.
  - split; [|reflexivity]. intros _ seg Hseg.
    rewrite forallb_forall in Hall. now apply nonEmpty_true, Hall.
  - split; [discriminate|]. intros Hsegs.
    assert (Habs : forallb (fun seg => nonEmpty (trim seg))
                           (commaSegments val) = true).
    { apply forallb_forall. intros seg Hseg.
      now apply nonEmpty_true, Hsegs. }
    congruence.
Qed.

(** C8. For a validated input, the object handed to the formatter has the
    validated title, description, link and card image as name,
    description, external link and image; the fixed version "2.0", impact
    scope "all", rights "Public Display" and empty exclusion lists; as
    work and impact timeframe the validated project dates, which are valid
    dates, in seconds since the epoch; and the validated contributors. *)
Theorem onSubmit_metadata badges d v :
  validate isUrl d = success v ->
  exists fromMs toMs,
    projectDates v = {| from := ValidDate fromMs; to := ValidDate toMs |} /\
    formatHypercertData_args badges v =
    {| arg_name := title v;
       arg_description := description v;
       arg_image := cardImage v;
       arg_external_url := link v;
       version := "2.0";
       properties := [];
       impactScope := ["all"];
       excludedImpactScope := [];
       workScope := badges;
       excludedWorkScope := [];
       rights := ["Public Display"];
       excludedRights := [];
       workTimeframeStart := Num (inject_Z fromMs / inject_Z 1000)%Q;
       workTimeframeEnd := Num (inject_Z toMs / inject_Z 1000)%Q;
       impactTimeframeStart := Num (inject_Z fromMs / inject_Z 1000)%Q;
       impactTimeframeEnd := Num (inject_Z toMs / inject_Z 1000)%Q;
       arg_contributors := contributors v |}.
Proof.
  intros H. apply validate_success_inv in H.
  destruct H as (_ & _ & _ & _ & _ & _ & _ & _ & _ & _ & _ & a & b & Hpd & _).
  exists a, b. split; [exact Hpd|].
  unfold formatHypercertData_args, metadata. rewrite Hpd. reflexivity.
Qed.

(** C9. A draft whose contributors text is empty fails validation on the
    contributors field: the empty text splits into one empty segment,
    which is not an address. *)
Theorem empty_contributors_rejected d :
  Draft.contributors d = "" ->
  split ", " "" = [""] /\ isValidEthereumAddress (trim "") = false /\
  exists issues,
    validate isUrl d = failure issues /\
    In {| path := ["contributors"];
          message := "Each value must be a valid Ethereum address separated by a comma and a space." |}
       issues.
Proof.
  intros Hempty. split; [reflexivity | split; [reflexivity|]].
  assert (Hin : In {| path := ["contributors"];
                      message := "Each value must be a valid Ethereum address separated by a comma and a space." |}
                   (fst (HypercertMintSchema isUrl [] d))).
  { rewrite HypercertMintSchema_issues, Hempty, contributors_schema_empty.
    do 10 (apply in_or_app; right). now left. }
  eexists. split; [exact (validate_failure _ _ Hin) | exact Hin].
Qed.

(** C10. Two validated inputs that differ only in their work start and
    end dates give the same metadata and the same formatted result. *)
Theorem onSubmit_ignores_work_dates {Formatted : Type}
  (formatHypercertData : FormatHypercertDataArgs -> Formatted)
  badges v1 v2 :
  sameExceptWorkDates v1 v2 ->
  formatHypercertData_args badges v1 = formatHypercertData_args badges v2 /\
  onSubmit formatHypercertData badges v1
  = onSubmit formatHypercertData badges v2.
Proof.
  unfold sameExceptWorkDates, onSubmit, formatHypercertData_args, metadata.
  destruct v1, v2; simpl.
  intros (-> & -> & -> & -> & _ & _ & _ & -> & -> & _ & _).
  split; reflexivity.
Qed.

End Proofs.

(** C5, as stated, fails on a description of more than 500 characters, and
    on a work date that is an invalid date: both drafts meet every condition
    the claim lists, and both are rejected. *)
Lemma validate_round_trip_counterexample :
  (Draft.title Samples.longDescriptionDraft = "Edge Esmeralda Hypercert" /\
   10 <= String.length (Draft.description Samples.longDescriptionDraft) /\
   Samples.isUrl (Draft.link Samples.longDescriptionDraft) = true /\
   Samples.isUrl (Draft.logo Samples.longDescriptionDraft) = true /\
   Samples.isUrl (Draft.banner Samples.longDescriptionDraft) = true /\
   Samples.isUrl (Draft.cardImage Samples.longDescriptionDraft) = true /\
   Draft.tags Samples.longDescriptionDraft = "impact, climate" /\
   le (from (Draft.projectDates Samples.longDescriptionDraft))
      (to (Draft.projectDates Samples.longDescriptionDraft)) = true /\
   Draft.contributors Samples.longDescriptionDraft = twoContributors /\
   validate Samples.isUrl Samples.longDescriptionDraft =
   failure [{| path := ["description"];
               message := "Description must be less than 500 characters" |}])
  /\
  (Draft.title Samples.invalidWorkEndDraft = "Edge Esmeralda Hypercert" /\
   10 <= String.length (Draft.description Samples.invalidWorkEndDraft) /\
   Samples.isUrl (Draft.link Samples.invalidWorkEndDraft) = true /\
   Samples.isUrl (Draft.logo Samples.invalidWorkEndDraft) = true /\
   Samples.isUrl (Draft.banner Samples.invalidWorkEndDraft) = true /\
   Samples.isUrl (Draft.cardImage Samples.invalidWorkEndDraft) = true /\
   Draft.tags Samples.invalidWorkEndDraft = "impact, climate" /\
   le (from (Draft.projectDates Samples.invalidWorkEndDraft))
      (to (Draft.projectDates Samples.invalidWorkEndDraft)) = true /\
   Draft.contributors Samples.invalidWorkEndDraft = twoContributors /\
   validate Samples.isUrl Samples.invalidWorkEndDraft =
   failure [{| path := ["workEndDate"]; message := "Invalid date" |}]).
Proof.
  split; repeat (split; [try reflexivity; simpl; lia|]); vm_compute; reflexivity.
Qed.

Lemma validate_round_trip_witness :
  exists v,
    validate Samples.isUrl Samples.draft = success v /\
    contributors v = [addressOf "a"; addressOf "b"] /\
    Forall (fun address =>
              isValidEthereumAddress address = true /\ trim address = address)
           (contributors v).
Proof.
  apply (validate_round_trip Samples.isUrl Samples.draft);
    try reflexivity; try discriminate.
  simpl. lia.
Defined.

Lemma projectDates_reversed_issue_witness :
  exists issues,
    validate Samples.isUrl Samples.reversedDatesDraft = failure issues /\
    In {| path := ["projectDates"; "projectDates"];
          message := "From date must be before to date" |} issues /\
    Forall (fun i => path i <> ["projectDates"]) issues.
Proof.
  apply (projectDates_reversed_issue Samples.isUrl Samples.reversedDatesDraft).
  reflexivity.
Defined.

(** The reversed-dates draft, evaluated: one issue, two path components. *)
Example reversedDatesDraft_issues :
  validate Samples.isUrl Samples.reversedDatesDraft =
  failure [{| path := ["projectDates"; "projectDates"];
              message := "From date must be before to date" |}].
Proof. vm_compute. reflexivity. Qed.

Example tags_accepted_example :
  safeParse tags_schema "impact, climate" = success "impact, climate".
Proof. reflexivity. Qed.

Example tags_rejected_example :
  safeParse tags_schema "impact,, climate" =
  failure [{| path := [];
              message := "Tags must must not be empty, Multiple tags must be separated by commas" |}].
Proof. reflexivity. Qed.

Example tags_empty_rejected_example :
  commaSegments "" = [""] /\
  safeParse tags_schema "" =
  failure [{| path := [];
              message := "Tags must must not be empty, Multiple tags must be separated by commas" |}].
Proof. split; reflexivity. Qed.

Lemma onSubmit_metadata_witness :
  exists fromMs toMs,
    projectDates (Samples.valuesWith date_2024_06_02 date_2024_06_30)
    = {| from := ValidDate fromMs; to := ValidDate toMs |} /\
    formatHypercertData_args ["Edge Esmeralda"; "Edge City"]
      (Samples.valuesWith date_2024_06_02 date_2024_06_30) =
    {| arg_name := "Edge Esmeralda Hypercert";
       arg_description := "Reporting from Edge Esmeralda";
       arg_image := "https://voicedeck.org/card.png";
       arg_external_url := "https://voicedeck.org";
       version := "2.0";
       properties := [];
       impactScope := ["all"];
       excludedImpactScope := [];
       workScope := ["Edge Esmeralda"; "Edge City"];
       excludedWorkScope := [];
       rights := ["Public Display"];
       excludedRights := [];
       workTimeframeStart := Num (inject_Z fromMs / inject_Z 1000)%Q;
       workTimeframeEnd := Num (inject_Z toMs / inject_Z 1000)%Q;
       impactTimeframeStart := Num (inject_Z fromMs / inject_Z 1000)%Q;
       impactTimeframeEnd := Num (inject_Z toMs / inject_Z 1000)%Q;
       arg_contributors := [addressOf "a"; addressOf "b"] |}.
Proof.
  apply (onSubmit_metadata Samples.isUrl ["Edge Esmeralda"; "Edge City"]
           Samples.draft (Samples.valuesWith date_2024_06_02 date_2024_06_30)).
  reflexivity.
Defined.

Lemma empty_contributors_rejected_witness :
  split ", " "" = [""] /\ isValidEthereumAddress (trim "") = false /\
  exists issues,
    validate Samples.isUrl Samples.noContributorsDraft = failure issues /\
    In {| path := ["contributors"];
          message := "Each value must be a valid Ethereum address separated by a comma and a space." |}
       issues.
Proof.
  apply (empty_contributors_rejected Samples.isUrl Samples.noContributorsDraft).
  reflexivity.
Defined.

Lemma onSubmit_ignores_work_dates_witness :
  formatHypercertData_args ["Edge Esmeralda"; "Edge City"]
    (Samples.valuesWith date_2024_06_02 date_2024_06_30)
  = formatHypercertData_args ["Edge Esmeralda"; "Edge City"]
      (Samples.valuesWith (ValidDate 0) (ValidDate 86400000))
  /\ onSubmit (fun args => arg_name args) ["Edge Esmeralda"; "Edge City"]
       (Samples.valuesWith date_2024_06_02 date_2024_06_30)
     = onSubmit (fun args => arg_name args) ["Edge Esmeralda"; "Edge City"]
         (Samples.valuesWith (ValidDate 0) (ValidDate 86400000)).
Proof.
  apply (onSubmit_ignores_work_dates (fun args => arg_name args)
           ["Edge Esmeralda"; "Edge City"]
           (Samples.valuesWith date_2024_06_02 date_2024_06_30)
           (Samples.valuesWith (ValidDate 0) (ValidDate 86400000))).
  unfold sameExceptWorkDates. simpl. repeat split.
Defined.

End SubmissionProofs.

(* ===================================================================== *)
(** * Further properties of the retrieval *)
(* ===================================================================== *)

Module RetrievalExtras.

Import Retrieval RetrievalProofs.

Section Proofs.

Context {Hypercert : Type}.
Variable endpoint : string.
Variable hyperboardId : string.

Local Abbreviation fetch := (@fetchHypercerts Hypercert endpoint hyperboardId).
Local Abbreviation hyperboardRequest :=
  (Requested endpoint (getHyperboardsByIdQuery hyperboardId)).

Lemma fanOutRequests_length ids :
  length (fanOutRequests endpoint ids) = length ids.
Proof.
  induction ids as [|id rest IH]; simpl; [reflexivity | now rewrite IH].
Qed.

Lemma fanOutPromises_length (w : @World Hypercert) ids : forall i,
  length (fanOutPromises w i ids) = length ids.
Proof.
  induction ids as [|id rest IH]; intro i; simpl;
    [reflexivity | now rewrite IH].
Qed.

Lemma fanOutPromises_In (w : @World Hypercert) ids p :
  In p (fanOutPromises w 0 ids) ->
  exists i id, nth_error ids i = Some id /\ p = hypercertsByHypercertId w i id.
Proof.
  intros Hin. apply In_nth_error in Hin. destruct Hin as [i Hi].
  rewrite fanOutPromises_nth in Hi.
  destruct (nth_error ids i) as [id|] eqn:Hid; [|discriminate].
  injection Hi as <-. exists i, id. split; [assumption | reflexivity].
Qed.

(** X1. The error of a failure envelope is always an exception that was
    raised during the execution, and a success envelope is returned only
    when nothing was raised. *)
Theorem fetchHypercerts_error_was_raised (w : @World Hypercert) t env :
  fetch w = (t, inr env) ->
  (forall e, error env = Some e -> Raised hyperboardId w e) /\
  (error env = None -> forall e, ~ Raised hyperboardId w e).
Proof.
  rewrite fetchHypercerts_run.
  destruct (outcome (hyperboardsById w hyperboardId)) as [e0|res] eqn:Hres.
  - intros [= <- <-]. split.
    + intros e [= <-]. now apply hyperboard_request_rejected.
    + discriminate.
  - destruct (hypercertIdsOf res) as [ids|] eqn:Hids.
    + destruct (Promise_all_outcome (fanOutPromises w 0 ids))
        as [[t' e0]|vs] eqn:Hall.
      * intros [= <- <-]. split; [|discriminate].
        intros e [= <-].
        destruct (Promise_all_rejected _ _ _ Hall) as [(k & p & Hk & Hp & _) _].
        rewrite fanOutPromises_nth in Hk.
        destruct (nth_error ids k) as [id|] eqn:Hid; [|discriminate].
        injection Hk as <-.
        now apply identifier_request_rejected with res ids k id.
      * intros [= <- <-]. split; [discriminate|].
        intros _ e Hraised.
        destruct Hraised
          as [e Hrej | res' Hres' Hids' | res' ids' i id e Hres' Hids' Hi Hrej].
        -- congruence.
        -- congruence.
        -- assert (res' = res) by congruence. subst res'.
           assert (ids' = ids) by congruence. subst ids'.
           assert (Hin : In (hypercertsByHypercertId w i id)
                            (fanOutPromises w 0 ids)).
           { apply nth_error_In with i.
             rewrite fanOutPromises_nth, Hi. reflexivity. }
           destruct (Promise_all_rejects _ _ _ Hin Hrej) as (t' & e' & Hrej').
           congruence.
    + intros [= <- <-]. split.
      * intros e [= <-]. now apply identifier_list_missing with res.
      * discriminate.
Qed.

(** X2. Once the hyperboard response yields an identifier list, the
    requests issued are fixed by that list alone: after the hyperboard
    request, one request per identifier, in the order of the list, all of
    them issued however the per-identifier requests settle -- a rejection
    stops none of them. *)
Theorem fetchHypercerts_requests (w : @World Hypercert) res ids :
  outcome (hyperboardsById w hyperboardId) = inr res ->
  hypercertIdsOf res = Some ids ->
  fst (fetch w)
  = hyperboardRequest :: Logged "Hypercert IDs" ids
      :: map (fun id => Requested endpoint (getHypercertsByHypercertIdQuery id))
           ids
  /\ length (filter isPerIdentifierRequest (fst (fetch w))) = length ids.
Proof.
  intros Hres Hids. rewrite fetchHypercerts_run, Hres, Hids.
  cbn [fst filter isPerIdentifierRequest].
  rewrite fanOutRequests_not_empty, fanOutRequests_length.
  split; [|reflexivity]. do 2 f_equal.
  clear. induction ids as [|id rest IH]; simpl; [reflexivity | now rewrite IH].
Qed.

(** X3. A success envelope never holds more records than the hyperboard
    has entries, and each of its records is the first record of the
    response to one of the identifiers. *)
Theorem fetchHypercerts_records_bound (w : @World Hypercert) t env records :
  fetch w = (t, inr env) ->
  data env = Some records ->
  exists res ids,
    outcome (hyperboardsById w hyperboardId) = inr res /\
    hypercertIdsOf res = Some ids /\
    length records <= length ids /\
    forall r, In r records ->
      exists i id reply record,
        nth_error ids i = Some id /\
        outcome (hypercertsByHypercertId w i id) = inr reply /\
        firstRecord reply = Some record /\ r = Some record.
Proof.
  rewrite fetchHypercerts_run.
  destruct (outcome (hyperboardsById w hyperboardId)) as [e0|res] eqn:Hres.
  { intros [= <- <-]. discriminate. }
  destruct (hypercertIdsOf res) as [ids|] eqn:Hids.
  2: { intros [= <- <-]. discriminate. }
  destruct (Promise_all_outcome (fanOutPromises w 0 ids))
    as [[t' e0]|vs] eqn:Hall.
  { intros [= <- <-]. discriminate. }
  intros [= <- <-] [= <-].
  apply Promise_all_values in Hall.
  exists res, ids. split; [reflexivity|]. split; [exact Hids|]. split.
  - assert (Hlen : length vs = length ids).
    { pose proof (f_equal (@length _) Hall) as Hl.
      rewrite !length_map, fanOutPromises_length in Hl. now symmetry. }
    etransitivity; [apply filter_length_le|].
    rewrite length_map. lia.
  - intros r Hr. apply filter_In in Hr. destruct Hr as [Hr Hsome].
    apply in_map_iff in Hr. destruct Hr as (reply & <- & Hreply).
    apply (in_map (@inr Error _)) in Hreply. rewrite <- Hall in Hreply.
    apply in_map_iff in Hreply. destruct Hreply as (p & Hp & Hin).
    apply fanOutPromises_In in Hin. destruct Hin as (i & id & Hi & ->).
    rewrite firstHypercert_firstRecord in *.
    destruct (firstRecord reply) as [record|] eqn:Hrec; [|discriminate].
    exists i, id, reply, record. repeat split; assumption.
Qed.

Lemma fanOutPromises_outcomes (w1 w2 : @World Hypercert) ids : forall i,
  (forall k id,
     outcome (hypercertsByHypercertId w1 k id)
     = outcome (hypercertsByHypercertId w2 k id)) ->
  map outcome (fanOutPromises w1 i ids) = map outcome (fanOutPromises w2 i ids).
Proof.
  induction ids as [|id rest IH]; intros i Hsame; simpl;
    [reflexivity | now rewrite Hsame, IH].
Qed.

(** X13. The order in which the replies arrive changes neither the
    requests issued, nor the records returned, nor whether the result is a
    success: two services that settle every request in the same way, at
    different times, give the same record list; at most the error carried
    by a failure differs. *)
Theorem fetchHypercerts_arrival_order (w1 w2 : @World Hypercert)
  t1 t2 env1 env2 :
  outcome (hyperboardsById w1 hyperboardId)
  = outcome (hyperboardsById w2 hyperboardId) ->
  (forall i id,
     outcome (hypercertsByHypercertId w1 i id)
     = outcome (hypercertsByHypercertId w2 i id)) ->
  fetch w1 = (t1, inr env1) ->
  fetch w2 = (t2, inr env2) ->
  t1 = t2 /\ data env1 = data env2 /\ (error env1 = None <-> error env2 = None).
Proof.
  intros Hboard Hsame. rewrite !fetchHypercerts_run, <- Hboard.
  destruct (outcome (hyperboardsById w1 hyperboardId)) as [e0|res].
  { intros [= <- <-] [= <- <-]. repeat split; discriminate. }
  destruct (hypercertIdsOf res) as [ids|].
  2: { intros [= <- <-] [= <- <-]. repeat split; discriminate. }
  pose proof (fanOutPromises_outcomes w1 w2 ids 0 Hsame) as Hout.
  destruct (Promise_all_outcome (fanOutPromises w1 0 ids))
    as [[t e]|vs] eqn:H1;
    destruct (Promise_all_outcome (fanOutPromises w2 0 ids))
      as [[t' e']|vs'] eqn:H2.
  - intros [= <- <-] [= <- <-]. repeat split; discriminate.
  - apply Promise_all_values in H2. rewrite <- Hout in H2.
    apply Promise_all_fulfilled in H2. congruence.
  - apply Promise_all_values in H1. rewrite Hout in H1.
    apply Promise_all_fulfilled in H1. congruence.
  - apply Promise_all_values in H1. apply Promise_all_values in H2.
    assert (Hvs : vs = vs').
    { rewrite Hout, H2 in H1. clear - H1. revert vs H1.
      induction vs' as [|v' vs' IH]; intros [|v vs] H; simpl in H;
        try discriminate; [reflexivity|].
      injection H as <- H. f_equal. now apply IH. }
    subst vs'. intros [= <- <-] [= <- <-]. repeat split.
Qed.

End Proofs.

Lemma fetchHypercerts_arrival_order_witness :
  fst (fetchHypercerts "https://api/graphql" "board" Samples.threeEntriesWorld)
  = fst (fetchHypercerts "https://api/graphql" "board"
           Samples.threeEntriesReorderedWorld)
  /\ Some [Some "a"; Some "c"] = Some [Some "a"; Some "c"]
  /\ (@None Error = None <-> @None Error = None).
Proof.
  apply (fetchHypercerts_arrival_order "https://api/graphql" "board"
           Samples.threeEntriesWorld Samples.threeEntriesReorderedWorld
           _ _
           {| data := Some [Some "a"; Some "c"]; error := None |}
           {| data := Some [Some "a"; Some "c"]; error := None |});
    reflexivity.
Defined.

Lemma fetchHypercerts_error_was_raised_witness :
  Raised "board" Samples.rejectingWorld Samples.timedOut.
Proof.
  refine (proj1 (fetchHypercerts_error_was_raised "https://api/graphql" "board"
                   Samples.rejectingWorld
                   [ Requested "https://api/graphql" (getHyperboardsByIdQuery "board");
                     Logged "Hypercert IDs" ["a"; "b"; "c"];
                     Requested "https://api/graphql" (getHypercertsByHypercertIdQuery "a");
                     Requested "https://api/graphql" (getHypercertsByHypercertIdQuery "b");
                     Requested "https://api/graphql" (getHypercertsByHypercertIdQuery "c") ]
                   (failureEnvelope Samples.timedOut) _) _ _);
    reflexivity.
Defined.

Lemma fetchHypercerts_requests_witness :
  fst (fetchHypercerts "https://api/graphql" "board" Samples.rejectingWorld)
  = [ Requested "https://api/graphql" (getHyperboardsByIdQuery "board");
      Logged "Hypercert IDs" ["a"; "b"; "c"];
      Requested "https://api/graphql" (getHypercertsByHypercertIdQuery "a");
      Requested "https://api/graphql" (getHypercertsByHypercertIdQuery "b");
      Requested "https://api/graphql" (getHypercertsByHypercertIdQuery "c") ]
  /\ length (filter isPerIdentifierRequest
               (fst (fetchHypercerts "https://api/graphql" "board"
                       Samples.rejectingWorld))) = 3.
Proof.
  apply (fetchHypercerts_requests "https://api/graphql" "board"
           Samples.rejectingWorld
           (Samples.boardWith [ {| entry_id := "a" |}; {| entry_id := "b" |};
                                {| entry_id := "c" |} ])
           ["a"; "b"; "c"]);
    reflexivity.
Defined.

Lemma fetchHypercerts_records_bound_witness :
  exists res ids,
    outcome (hyperboardsById Samples.threeEntriesWorld "board") = inr res /\
    hypercertIdsOf res = Some ids /\
    length [Some "a"; Some "c"] <= length ids /\
    forall r, In r [Some "a"; Some "c"] ->
      exists i id reply record,
        nth_error ids i = Some id /\
        outcome (hypercertsByHypercertId Samples.threeEntriesWorld i id)
        = inr reply /\
        firstRecord reply = Some record /\ r = Some record.
Proof.
  apply (fetchHypercerts_records_bound "https://api/graphql" "board"
           Samples.threeEntriesWorld
           [ Requested "https://api/graphql" (getHyperboardsByIdQuery "board");
             Logged "Hypercert IDs" ["a"; "b"; "c"];
             Requested "https://api/graphql" (getHypercertsByHypercertIdQuery "a");
             Requested "https://api/graphql" (getHypercertsByHypercertIdQuery "b");
             Requested "https://api/graphql" (getHypercertsByHypercertIdQuery "c") ]
           {| data := Some [Some "a"; Some "c"]; error := None |});
    reflexivity.
Defined.

End RetrievalExtras.

(* ===================================================================== *)
(** * Further properties of strings *)
(* ===================================================================== *)

Module JsStringExtras.

Import JsString JsStringProofs.

Lemma isWhiteSpace_not_comma (c : ascii) :
  isWhiteSpace c = true -> Ascii.eqb c "," = false.
Proof.
  destruct c as [[] [] [] [] [] [] [] []]; vm_compute; congruence.
Qed.

Lemma trimStart_idempotent (s : string) : trimStart (trimStart s) = trimStart s.
Proof.
  induction s as [|c rest IH]; simpl; [reflexivity|].
  destruct (isWhiteSpace c) eqn:Hc; [exact IH|].
  simpl. now rewrite Hc.
Qed.

Lemma trimEnd_idempotent (s : string) : trimEnd (trimEnd s) = trimEnd s.
Proof.
  induction s as [|c rest IH]; simpl; [reflexivity|].
  destruct (trimEnd rest) as [|a t] eqn:Ht.
  - destruct (isWhiteSpace c) eqn:Hc; simpl; [reflexivity|].
    now rewrite Hc.
  - cbn [trimEnd] in *. rewrite IH. reflexivity.
Qed.

Lemma trimEnd_trimStart (s : string) :
  trimEnd (trimStart s) = trimStart (trimEnd s).
Proof.
  induction s as [|c rest IH]; simpl; [reflexivity|].
  destruct (isWhiteSpace c) eqn:Hc.
  - rewrite IH. destruct (trimEnd rest) as [|a t] eqn:Ht; simpl.
    + reflexivity.
    + now rewrite Hc.
  - simpl. destruct (trimEnd rest) as [|a t] eqn:Ht; simpl; now rewrite Hc.
Qed.

(** Trimming a trimmed string changes nothing. *)
Lemma trim_idempotent (s : string) : trim (trim s) = trim s.
Proof.
  unfold trim.
  now rewrite trimEnd_trimStart, trimEnd_idempotent, trimStart_idempotent.
Qed.

Lemma trim_whitespace_cons (c : ascii) (s : string) :
  isWhiteSpace c = true -> trim (String c s) = trim s.
Proof.
  intros Hc. unfold trim. simpl.
  destruct (trimEnd s) as [|a t]; simpl; now rewrite Hc.
Qed.

Lemma trim_whitespace_prefix (pre s : string) :
  everyCodeUnit isWhiteSpace pre = true ->
  trim (String.append pre s) = trim s.
Proof.
  induction pre as [|c pre IH]; simpl; [reflexivity|].
  intros H. apply andb_true_iff in H. destruct H as [Hc Hpre].
  rewrite trim_whitespace_cons by assumption. auto.
Qed.

Lemma hasComma_append (a b : string) :
  hasComma (String.append a b) = hasComma a || hasComma b.
Proof.
  induction a as [|c a IH]; simpl; [reflexivity|].
  now rewrite IH, orb_assoc.
Qed.

Lemma hasComma_trimStart (s : string) : hasComma (trimStart s) = hasComma s.
Proof.
  induction s as [|c rest IH]; simpl; [reflexivity|].
  destruct (isWhiteSpace c) eqn:Hc; [|reflexivity].
  now rewrite IH, (isWhiteSpace_not_comma c Hc).
Qed.

Lemma hasComma_trimEnd (s : string) : hasComma (trimEnd s) = hasComma s.
Proof.
  induction s as [|c rest IH]; simpl; [reflexivity|].
  destruct (trimEnd rest) as [|a t] eqn:Ht.
  - rewrite <- IH. simpl.
    destruct (isWhiteSpace c) eqn:Hc; simpl.
    + now rewrite (isWhiteSpace_not_comma c Hc).
    + reflexivity.
  - rewrite <- IH. reflexivity.
Qed.

(** Trimming neither removes nor adds a comma. *)
Lemma hasComma_trim (s : string) : hasComma (trim s) = hasComma s.
Proof.
  unfold trim. now rewrite hasComma_trimStart, hasComma_trimEnd.
Qed.

(** The first segment of a scan starts with the segment being read. *)
Lemma splitFrom_head (sep s : string) : forall skip cur,
  exists x tl, splitFrom sep skip cur s = String.append cur x :: tl.
Proof.
  induction s as [|c rest IH]; intros skip cur.
  - exists EmptyString, []. simpl. now rewrite append_empty_r.
  - cbn [splitFrom]. destruct skip as [|k]; [|apply IH].
    destruct (prefix sep (String c rest)).
    + exists EmptyString. eexists. now rewrite append_empty_r.
    + destruct (IH 0 (String.append cur (String c EmptyString))) as (x & tl & H).
      exists (String c x), tl. now rewrite H, append_unit.
Qed.

Lemma splitFrom_nonempty (sep s : string) skip cur :
  splitFrom sep skip cur s <> [].
Proof.
  destruct (splitFrom_head sep s skip cur) as (x & tl & ->). discriminate.
Qed.

Lemma prefix_space (c : ascii) (rest : string) :
  prefix " " (String c rest) = Ascii.eqb c " ".
Proof.
  change (prefix " " (String c rest))
    with (if ascii_dec " " c then prefix EmptyString rest else false).
  destruct (ascii_dec " " c) as [<- | Hne].
  - destruct rest; reflexivity.
  - symmetry. apply Ascii.eqb_neq. congruence.
Qed.

Lemma prefix_comma_space (c : ascii) (rest : string) :
  prefix ", " (String c rest) = Ascii.eqb c "," && prefix " " rest.
Proof.
  change (prefix ", " (String c rest))
    with (if ascii_dec "," c then prefix " " rest else false).
  destruct (ascii_dec "," c) as [<- | Hne].
  - reflexivity.
  - assert (H : Ascii.eqb c "," = false) by (apply Ascii.eqb_neq; congruence).
    now rewrite H.
Qed.

(** On a text whose segments between ", " hold no comma, splitting on ","
    and splitting on ", " give the same segments up to white space. *)
Lemma splitFrom_separators_agree (s : string) :
  (forall cur pre,
     everyCodeUnit isWhiteSpace pre = true ->
     Forall (fun seg => hasComma seg = false) (splitFrom ", " 0 cur s) ->
     map trim (splitFrom "," 0 (String.append pre cur) s)
     = map trim (splitFrom ", " 0 cur s))
  /\ (prefix " " s = true ->
      Forall (fun seg => hasComma seg = false)
             (splitFrom ", " 1 EmptyString s) ->
      map trim (splitFrom "," 0 EmptyString s)
      = map trim (splitFrom ", " 1 EmptyString s)).
Proof.
  induction s as [|c rest [IH1 IH2]]; split.
  - intros cur pre Hpre _. simpl. now rewrite trim_whitespace_prefix.
  - discriminate.
  - intros cur pre Hpre Hfree.
    cbn [splitFrom] in *. rewrite prefix_comma, prefix_comma_space in *.
    destruct (Ascii.eqb c ",") eqn:Hc; cbn [andb] in *.
    + destruct (prefix " " rest) eqn:Hsp.
      * cbn [String.length Nat.sub] in *. cbn [map].
        rewrite trim_whitespace_prefix by assumption.
        inversion Hfree; subst. f_equal. now apply IH2.
      * exfalso.
        destruct (splitFrom_head ", " rest 0
                    (String.append cur (String c EmptyString)))
          as (x & tl & Hhead).
        rewrite Hhead in Hfree. inversion Hfree as [|? ? Hseg _]; subst.
        rewrite !hasComma_append in Hseg. simpl in Hseg.
        rewrite Hc in Hseg. rewrite orb_true_r in Hseg. discriminate.
    + rewrite <- IH1 with (pre := pre) by assumption.
      f_equal. f_equal.
      clear. induction pre as [|a pre IH]; simpl; [reflexivity | now rewrite IH].
  - intros Hsp Hfree. rewrite prefix_space in Hsp.
    apply Ascii.eqb_eq in Hsp. subst c.
    cbn [splitFrom] in *. rewrite prefix_comma. cbn [Ascii.eqb Bool.eqb].
    change (String.append EmptyString (String " " EmptyString))
      with (String.append (String " " EmptyString) EmptyString).
    now apply IH1.
Qed.

(** [value.split(",")] and [value.split(", ")] agree up to white space when
    no segment of the latter holds a comma. *)
Lemma split_separators_agree (value : string) :
  Forall (fun seg => hasComma seg = false) (split ", " value) ->
  map trim (split "," value) = map trim (split ", " value).
Proof.
  intros Hfree. unfold split in *.
  now apply (proj1 (splitFrom_separators_agree value) EmptyString EmptyString).
Qed.

Lemma filter_all_iff {A} (p : A -> bool) (l : list A) :
  filter p l = l <-> forallb p l = true.
Proof.
  induction l as [|a l IH]; simpl; [tauto|].
  destruct (p a) eqn:Ha; simpl.
  - rewrite <- IH. split; [intros [= H]; exact H | intros ->; reflexivity].
  - split; [|discriminate]. intros H.
    pose proof (filter_length_le p l) as Hle.
    rewrite H in Hle. simpl in Hle. lia.
Qed.

End JsStringExtras.

(* ===================================================================== *)
(** * Further properties of the submission form *)
(* ===================================================================== *)

Module SubmissionExtras.

Import JsString JsDate Zod Submission.
Import JsStringProofs JsStringExtras ZodProofs SubmissionProofs.

Lemma Subseq_app {A} (a a' b b' : list A) :
  Subseq a a' -> Subseq b b' -> Subseq (a ++ b) (a' ++ b').
Proof.
  intros Ha Hb. induction Ha; simpl; [assumption | |]; now constructor.
Qed.



Lemma forallb_map_compose {A B} (p : B -> bool) (f : A -> B) (l : list A) :
  forallb p (map f l) = forallb (fun x => p (f x)) l.
Proof.
  induction l as [|a l IH]; simpl; [reflexivity | now rewrite IH].
Qed.

Lemma isHexDigit_not_comma (c : ascii) :
  isHexDigit c = true -> Ascii.eqb c "," = false.
Proof.
  destruct c as [[] [] [] [] [] [] [] []]; vm_compute; congruence.
Qed.

Lemma everyCodeUnit_hex_no_comma (s : string) :
  everyCodeUnit isHexDigit s = true -> hasComma s = false.
Proof.
  induction s as [|c rest IH]; simpl; [reflexivity|].
  intros H. apply andb_true_iff in H. destruct H as [Hc Hrest].
  now rewrite (isHexDigit_not_comma c Hc), IH.
Qed.

(** An address holds no comma. *)
Lemma isValidEthereumAddress_no_comma (address : string) :
  isValidEthereumAddress address = true -> hasComma address = false.
Proof.
  intros H. destruct address as [|a rest]; [discriminate|].
  destruct a as [[] [] [] [] [] [] [] []]; try discriminate H.
  destruct rest as [|b digits]; [discriminate|].
  destruct b as [[] [] [] [] [] [] [] []]; try discriminate H.
  cbn [isValidEthereumAddress] in H.
  apply andb_true_iff in H. destruct H as [_ Hhex].
  cbn [hasComma]. rewrite (everyCodeUnit_hex_no_comma _ Hhex). reflexivity.
Qed.

Section Proofs.

Variable isUrl : string -> bool.

(** *** The fields one by one, both ways *)

Lemma title_schema_accepts p s :
  fst (title_schema p s) = [] <-> 1 <= String.length s <= 50.
Proof.
  unfold title_schema, string_, min, max. simpl.
  destruct (Nat.ltb_spec (String.length s) 1) as [Hlo|Hlo];
    destruct (Nat.ltb_spec 50 (String.length s)) as [Hhi|Hhi]; simpl;
    split; intros Hacc; try discriminate; try lia; reflexivity.
Qed.

Lemma description_schema_accepts p s :
  fst (description_schema p s) = [] <-> 10 <= String.length s <= 500.
Proof.
  unfold description_schema, string_, min, max. simpl.
  destruct (Nat.ltb_spec (String.length s) 10) as [Hlo|Hlo];
    destruct (Nat.ltb_spec 500 (String.length s)) as [Hhi|Hhi]; simpl;
    split; intros Hacc; try discriminate; try lia; reflexivity.
Qed.

Lemma url_schema_accepts msg p s :
  fst (string_ [url isUrl msg] p s) = [] <-> isUrl s = true.
Proof.
  unfold string_, url. simpl.
  destruct (isUrl s); simpl; split; intros H; try discriminate; reflexivity.
Qed.

Lemma tags_schema_accepts p val :
  fst (tags_schema p val) = [] <->
  Forall (fun seg => trim seg <> "") (commaSegments val).
Proof.
  rewrite tags_schema_run, Forall_forall.
  destruct (forallb (fun seg => nonEmpty (trim seg)) (commaSegments val))
    eqn:Hall; simpl.
  - split; [|reflexivity]. intros _ seg Hseg.
    rewrite forallb_forall in Hall. now apply nonEmpty_true, Hall.
  - split; [discriminate|]. intros Hsegs.
    assert (Habs : forallb (fun seg => nonEmpty (trim seg))
                           (commaSegments val) = true).
    { apply forallb_forall. intros seg Hseg. now apply nonEmpty_true, Hsegs. }
    congruence.
Qed.

Lemma projectDates_schema_accepts p r :
  fst (projectDates_schema p r) = [] <->
  exists a b, r = {| from := ValidDate a; to := ValidDate b |} /\ (a <= b)%Z.
Proof.
  unfold projectDates_schema, refine, dateRange_object, field.
  destruct r as [[a|] [b|]]; simpl.
  - destruct (Z.leb_spec a b); simpl; split.
    + intros _. eauto.
    + reflexivity.
    + discriminate.
    + intros (a' & b' & [= <- <-] & Hle). lia.
  - split; [discriminate | intros (? & ? & [=] & _)].
  - split; [discriminate | intros (? & ? & [=] & _)].
  - split; [discriminate | intros (? & ? & [=] & _)].
Qed.

Lemma default_date_accepts dflt p x :
  fst (default date (ValidDate dflt) p x) = [] <-> givenDateValid x.
Proof.
  unfold default, givenDateValid.
  destruct x as [[ms|]|]; simpl; split; intros H;
    try discriminate; try reflexivity.
  now elim H.
Qed.

Lemma default_date_value dflt p x v :
  snd (default date dflt p x) = Some v ->
  v = match x with Some given => given | None => dflt end.
Proof.
  unfold default.
  destruct (match x with Some given => given | None => dflt end);
    simpl; [intros [= <-]; reflexivity | discriminate].
Qed.

Lemma contributors_schema_run p s :
  contributors_schema p s =
  if forallb isValidEthereumAddress (map trim (split ", " s))
  then ([], Some (map trim (split "," s)))
  else ([{| path := p;
            message := "Each value must be a valid Ethereum address separated by a comma and a space." |}],
        None).
Proof.
  unfold contributors_schema, transform, refine, every. cbn [string_ flat_map].
  destruct (forallb isValidEthereumAddress (map trim (split ", " s)));
    simpl; [reflexivity | now rewrite app_nil_r].
Qed.

Lemma contributors_schema_accepts p s :
  fst (contributors_schema p s) = [] <->
  Forall (fun seg => isValidEthereumAddress (trim seg) = true) (split ", " s).
Proof.
  rewrite contributors_schema_run, Forall_forall, forallb_map_compose.
  destruct (forallb (fun x => isValidEthereumAddress (trim x)) (split ", " s))
    eqn:Hall; simpl.
  - split; [|reflexivity]. intros _. now apply forallb_forall.
  - split; [discriminate|]. intros H.
    assert (Habs : forallb (fun x => isValidEthereumAddress (trim x))
                           (split ", " s) = true)
      by (apply forallb_forall; exact H).
    rewrite Habs in Hall. discriminate.
Qed.

Lemma string__accepted checks p s :
  fst (string_ checks p s) = [] -> string_ checks p s = ([], Some s).
Proof.
  unfold string_. simpl. now intros ->.
Qed.

Lemma tags_schema_accepted p val :
  fst (tags_schema p val) = [] -> tags_schema p val = ([], Some val).
Proof.
  rewrite tags_schema_run.
  destruct (forallb (fun seg => nonEmpty (trim seg)) (commaSegments val));
    simpl; [reflexivity | discriminate].
Qed.

Lemma projectDates_schema_accepted p r :
  fst (projectDates_schema p r) = [] -> projectDates_schema p r = ([], Some r).
Proof.
  intros H. apply projectDates_schema_accepts in H.
  destruct H as (a & b & -> & Hle).
  apply projectDates_schema_valid. simpl. now apply Z.leb_le.
Qed.

Lemma default_date_accepted dflt p x :
  fst (default date (ValidDate dflt) p x) = [] ->
  default date (ValidDate dflt) p x
  = ([], Some match x with Some given => given | None => ValidDate dflt end).
Proof.
  unfold default. destruct x as [[ms|]|]; simpl; try reflexivity; discriminate.
Qed.

Lemma contributors_schema_accepted p s :
  fst (contributors_schema p s) = [] ->
  contributors_schema p s = ([], Some (map trim (split "," s))).
Proof.
  rewrite contributors_schema_run.
  destruct (forallb isValidEthereumAddress (map trim (split ", " s)));
    simpl; [reflexivity | discriminate].
Qed.

(** *** The schema as a whole *)

Lemma HypercertMintSchema_no_issue d :
  fst (HypercertMintSchema isUrl [] d) = [] <-> acceptable isUrl d.
Proof.
  rewrite HypercertMintSchema_issues. unfold acceptable.
  rewrite <- title_schema_accepts with (p := ["title"]).
  rewrite <- description_schema_accepts with (p := ["description"]).
  rewrite <- (url_schema_accepts "Link must be a valid URL" ["link"]).
  rewrite <- (url_schema_accepts "Card image not generated" ["cardImage"]).
  rewrite <- (url_schema_accepts "Logo Image must be a valid URL" ["logo"]).
  rewrite <- (url_schema_accepts "Background Banner Image must be a valid URL"
                ["banner"]).
  rewrite <- tags_schema_accepts with (p := ["tags"]).
  rewrite <- projectDates_schema_accepts with (p := ["projectDates"]).
  rewrite <- (default_date_accepts 1717286400000 ["workStartDate"]).
  rewrite <- (default_date_accepts 1719705600000 ["workEndDate"]).
  rewrite <- contributors_schema_accepts with (p := ["contributors"]).
  split.
  - intros H.
    repeat (apply app_eq_nil in H;
            let Hf := fresh "Hf" in destruct H as [Hf H]).
    repeat split; assumption.
  - intros (H1 & H2 & H3 & H4 & H5 & H6 & H7 & H8 & H9 & H10 & H11).
    unfold link_schema, cardImage_schema, logo_schema, banner_schema,
      workStartDate_schema, workEndDate_schema, date_2024_06_02,
      date_2024_06_30.
    now rewrite H1, H2, H3, H4, H5, H6, H7, H8, H9, H10, H11.
Qed.

Lemma HypercertMintSchema_accepted d :
  acceptable isUrl d ->
  HypercertMintSchema isUrl [] d = ([], Some (validatedOf d)).
Proof.
  intros H. apply HypercertMintSchema_no_issue in H.
  rewrite HypercertMintSchema_issues in H.
  repeat (apply app_eq_nil in H;
          let Hf := fresh "Hf" in destruct H as [Hf H]).
  unfold HypercertMintSchema, validatedOf.
  repeat (apply field_valid); try reflexivity.
  - now apply string__accepted.
  - now apply string__accepted.
  - now apply string__accepted.
  - now apply string__accepted.
  - now apply string__accepted.
  - now apply string__accepted.
  - now apply tags_schema_accepted.
  - now apply projectDates_schema_accepted.
  - now apply default_date_accepted.
  - now apply default_date_accepted.
  - now apply contributors_schema_accepted.
Qed.

(** Validation succeeds exactly on the acceptable drafts, with the values
    [validatedOf]. *)
Lemma validate_success_iff d v :
  validate isUrl d = success v <-> acceptable isUrl d /\ v = validatedOf d.
Proof.
  unfold validate. rewrite safeParse_success. split.
  - intros H.
    assert (Hacc : acceptable isUrl d)
      by (apply HypercertMintSchema_no_issue; now rewrite H).
    split; [assumption|].
    rewrite (HypercertMintSchema_accepted d Hacc) in H. congruence.
  - intros [Hacc ->]. now apply HypercertMintSchema_accepted.
Qed.

(** A failure lists the issues of the schema, and there is at least one. *)
Lemma validate_failure_inv d issues :
  validate isUrl d = failure issues ->
  issues = fst (HypercertMintSchema isUrl [] d) /\ issues <> [].
Proof.
  unfold validate, safeParse.
  destruct (HypercertMintSchema isUrl [] d) as [found value] eqn:Hrun.
  assert (Hnone : found = [] -> value = Some (validatedOf d)).
  { intros ->.
    assert (Hacc : acceptable isUrl d)
      by (apply HypercertMintSchema_no_issue; now rewrite Hrun).
    rewrite (HypercertMintSchema_accepted d Hacc) in Hrun. congruence. }
  destruct found as [|i0 more].
  - rewrite (Hnone eq_refl). discriminate.
  - destruct value; intros [= <-]; split; try reflexivity; discriminate.
Qed.

(** *** Issue paths, field by field *)

Ltac subseq :=
  repeat first [apply Subseq_nil | apply Subseq_keep | apply Subseq_skip].

Lemma single_check_paths chk p s :
  Subseq (map path (fst (string_ [chk] p s))) [p].
Proof.
  unfold string_. simpl. destruct (chk s); simpl; subseq.
Qed.

Lemma title_schema_paths p s :
  Subseq (map path (fst (title_schema p s))) [p].
Proof.
  unfold title_schema, string_, min, max. simpl.
  destruct (Nat.ltb_spec (String.length s) 1) as [Hlo|Hlo];
    destruct (Nat.ltb_spec 50 (String.length s)) as [Hhi|Hhi]; simpl;
    try lia; subseq.
Qed.

Lemma description_schema_paths p s :
  Subseq (map path (fst (description_schema p s))) [p].
Proof.
  unfold description_schema, string_, min, max. simpl.
  destruct (Nat.ltb_spec (String.length s) 10) as [Hlo|Hlo];
    destruct (Nat.ltb_spec 500 (String.length s)) as [Hhi|Hhi]; simpl;
    try lia; subseq.
Qed.

Lemma tags_schema_paths p val :
  Subseq (map path (fst (tags_schema p val))) [p].
Proof.
  rewrite tags_schema_run.
  destruct (forallb (fun seg => nonEmpty (trim seg)) (commaSegments val));
    simpl; subseq.
Qed.

Lemma projectDates_schema_paths r :
  Subseq (map path (fst (projectDates_schema ["projectDates"] r)))
    [ ["projectDates"; "from"]; ["projectDates"; "to"];
      ["projectDates"; "projectDates"] ].
Proof.
  unfold projectDates_schema, refine, dateRange_object, field.
  destruct r as [[a|] [b|]]; simpl;
    [destruct (a <=? b)%Z; simpl | | |]; subseq.
Qed.

Lemma default_date_paths dflt p x :
  Subseq (map path (fst (default date dflt p x))) [p].
Proof.
  unfold default.
  destruct (match x with Some v => v | None => dflt end); simpl;
    subseq.
Qed.

Lemma contributors_schema_paths p s :
  Subseq (map path (fst (contributors_schema p s))) [p].
Proof.
  rewrite contributors_schema_run.
  destruct (forallb isValidEthereumAddress (map trim (split ", " s)));
    simpl; subseq.
Qed.

Lemma HypercertMintSchema_paths d :
  Subseq (map path (fst (HypercertMintSchema isUrl [] d))) issuePaths.
Proof.
  rewrite HypercertMintSchema_issues, !map_app.
  change issuePaths with
    ([["title"]] ++ [["description"]] ++ [["link"]] ++ [["cardImage"]]
     ++ [["logo"]] ++ [["banner"]] ++ [["tags"]]
     ++ [ ["projectDates"; "from"]; ["projectDates"; "to"];
          ["projectDates"; "projectDates"] ]
     ++ [["workStartDate"]] ++ [["workEndDate"]] ++ [["contributors"]]).
  repeat apply Subseq_app.
  - apply title_schema_paths.
  - apply description_schema_paths.
  - apply single_check_paths.
  - apply single_check_paths.
  - apply single_check_paths.
  - apply single_check_paths.
  - apply tags_schema_paths.
  - apply projectDates_schema_paths.
  - apply default_date_paths.
  - apply default_date_paths.
  - apply contributors_schema_paths.
Qed.

(** ** Properties *)

(** X4. Validation succeeds exactly when every field meets its own rule:
    title of 1 to 50 characters, description of 10 to 500, the four URLs
    well-formed, every tag segment non-empty after trimming, valid project
    dates with from <= to (equal dates included), work dates left out or
    valid, and every ", "-separated contributor an address once trimmed.
    Nothing else is required. *)
Theorem validate_accepts_iff d :
  (exists v, validate isUrl d = success v) <-> acceptable isUrl d.
Proof.
  split.
  - intros [v H]. now apply validate_success_iff in H.
  - intros H. exists (validatedOf d). apply validate_success_iff. now split.
Qed.

(** X5. The validated values are the fields of the draft as they are,
    except that a work start or end date left out becomes 2024-06-02 or
    2024-06-30, and that the contributors text becomes the list of its
    ","-separated segments, trimmed. *)
Theorem validate_values d v :
  validate isUrl d = success v -> v = validatedOf d.
Proof.
  intros H. now apply validate_success_iff in H.
Qed.

(** X6. Although the check splits the contributors text on ", " and the
    transformation splits it on ",", on every accepted draft the validated
    contributors are exactly the segments that were checked: at least one,
    each a well-formed address, in the order of the text. *)
Theorem validated_contributors d v :
  validate isUrl d = success v ->
  contributors v = map trim (split ", " (Draft.contributors d)) /\
  contributors v <> [] /\
  Forall (fun address => isValidEthereumAddress address = true)
         (contributors v).
Proof.
  intros H. apply validate_success_iff in H. destruct H as [Hacc ->].
  destruct Hacc as (_ & _ & _ & _ & _ & _ & _ & _ & _ & _ & Hvalid).
  assert (Hagree : map trim (split "," (Draft.contributors d))
                   = map trim (split ", " (Draft.contributors d))).
  { apply split_separators_agree.
    eapply Forall_impl; [|exact Hvalid]. intros seg Hseg. simpl in Hseg.
    rewrite <- hasComma_trim. now apply isValidEthereumAddress_no_comma. }
  cbn [contributors validatedOf]. rewrite Hagree.
  split; [reflexivity|]. split.
  - unfold split. cbn [map].
    destruct (splitFrom_head ", " (Draft.contributors d) 0 EmptyString)
      as (x & tl & ->).
    discriminate.
  - apply Forall_map. exact Hvalid.
Qed.

(** X8. For a validated input the timeframes handed to the formatter are
    numbers, the work and the impact timeframe are the same, and the start
    is not after the end. *)
Theorem onSubmit_timeframes_ordered badges d v :
  validate isUrl d = success v ->
  exists s e,
    workTimeframeStart (formatHypercertData_args badges v) = Num s /\
    workTimeframeEnd (formatHypercertData_args badges v) = Num e /\
    impactTimeframeStart (formatHypercertData_args badges v) = Num s /\
    impactTimeframeEnd (formatHypercertData_args badges v) = Num e /\
    (s <= e)%Q.
Proof.
  intros H. apply validate_success_inv in H.
  destruct H as (_ & _ & _ & _ & _ & _ & _ & _ & _ & _ & _ & a & b & Hpd & Hle).
  exists (inject_Z a / inject_Z 1000)%Q, (inject_Z b / inject_Z 1000)%Q.
  unfold formatHypercertData_args. cbn. rewrite Hpd. cbn.
  repeat split. unfold Qle. simpl. lia.
Qed.

(** X10. The two acknowledgements play no part in validation: setting them
    to any values leaves a failure, with its issues, a failure, and a
    success a success. *)
Theorem validate_ignores_acknowledgements d terms permission :
  validate isUrl (withAcknowledgements d terms permission) =
  match validate isUrl d with
  | success _ => success (validatedOf (withAcknowledgements d terms permission))
  | failure issues => failure issues
  end.
Proof.
  destruct (validate isUrl d) as [v|issues] eqn:H.
  - apply validate_success_iff in H. destruct H as [Hacc _].
    apply validate_success_iff. split; [exact Hacc | reflexivity].
  - apply validate_failure_inv in H. destruct H as [-> Hne].
    assert (Hsame : fst (HypercertMintSchema isUrl []
                           (withAcknowledgements d terms permission))
                    = fst (HypercertMintSchema isUrl [] d))
      by (now rewrite !HypercertMintSchema_issues).
    rewrite <- Hsame. apply safeParse_failure. left. now rewrite Hsame.
Qed.

End Proofs.

(** X9. The metadata depends on the title, the description, the card
    image, the link, the project dates, the contributors and the badge list
    only: the logo, the banner, the tags text, the work dates and the two
    acknowledgements never reach it. *)
Theorem onSubmit_reads_six_fields {Formatted : Type}
  (formatHypercertData : FormatHypercertDataArgs -> Formatted)
  badges v1 v2 :
  sameSubmittedFields v1 v2 ->
  formatHypercertData_args badges v1 = formatHypercertData_args badges v2 /\
  onSubmit formatHypercertData badges v1
  = onSubmit formatHypercertData badges v2.
Proof.
  unfold sameSubmittedFields, onSubmit, formatHypercertData_args, metadata.
  destruct v1, v2; simpl.
  intros (-> & -> & -> & -> & -> & ->). split; reflexivity.
Qed.

(** X11. The badge list always starts with the two fixed badges; after them
    come the tag segments between the commas, trimmed, in their order, the
    empty ones left out. No badge after the first two is empty or has white
    space around it. *)
Theorem badgesEffect_shape tags :
  exists extra,
    badgesEffect tags = "Edge Esmeralda" :: "Edge City" :: extra /\
    extra = filter nonEmpty (map trim (commaSegments tags)) /\
    Forall (fun badge => badge <> "" /\ trim badge = badge) extra.
Proof.
  exists (filter nonEmpty (map trim (commaSegments tags))). split; [|split].
  - unfold badgesEffect, tagArray. rewrite split_comma.
    destruct tags; reflexivity.
  - reflexivity.
  - apply Forall_forall. intros badge Hin.
    apply filter_In in Hin. destruct Hin as [Hin Hne].
    apply in_map_iff in Hin. destruct Hin as (seg & <- & _).
    split; [now apply nonEmpty_true | apply trim_idempotent].
Qed.

(** X12. The schema accepts a tags text exactly when the badge list shows
    every one of its segments: a text the schema rejects is one of which
    the badge list silently drops a segment. *)
Theorem tags_accepted_iff_badges tags :
  safeParse tags_schema tags = success tags <->
  badgesEffect tags
  = "Edge Esmeralda" :: "Edge City" :: map trim (commaSegments tags).
Proof.
  rewrite safeParse_success, tags_schema_run.
  rewrite <- (forallb_map_compose nonEmpty trim).
  unfold badgesEffect, tagArray. rewrite split_comma.
  destruct tags as [|c rest].
  - simpl. split; discriminate.
  - cbn [nonEmpty].
    generalize (commaSegments (String c rest)). intros segs.
    destruct (forallb nonEmpty (map trim segs)) eqn:Hall.
    + split; [|reflexivity]. intros _. do 2 f_equal.
      now apply filter_all_iff.
    + split; [discriminate|]. intros [= H].
      apply filter_all_iff in H.
      assert (Habs : forallb nonEmpty (map trim segs) = true) by exact H.
      rewrite Habs in Hall. discriminate.
Qed.

Lemma validate_values_witness :
  Samples.valuesWith date_2024_06_02 date_2024_06_30
  = validatedOf Samples.draft.
Proof.
  apply (validate_values Samples.isUrl Samples.draft). reflexivity.
Defined.

Lemma validated_contributors_witness :
  contributors (Samples.valuesWith date_2024_06_02 date_2024_06_30)
  = map trim (split ", " (Draft.contributors Samples.draft)) /\
  contributors (Samples.valuesWith date_2024_06_02 date_2024_06_30) <> [] /\
  Forall (fun address => isValidEthereumAddress address = true)
         (contributors (Samples.valuesWith date_2024_06_02 date_2024_06_30)).
Proof.
  apply (validated_contributors Samples.isUrl Samples.draft). reflexivity.
Defined.

Lemma onSubmit_timeframes_ordered_witness :
  exists s e,
    workTimeframeStart
      (formatHypercertData_args initialBadges
         (Samples.valuesWith date_2024_06_02 date_2024_06_30)) = Num s /\
    workTimeframeEnd
      (formatHypercertData_args initialBadges
         (Samples.valuesWith date_2024_06_02 date_2024_06_30)) = Num e /\
    impactTimeframeStart
      (formatHypercertData_args initialBadges
         (Samples.valuesWith date_2024_06_02 date_2024_06_30)) = Num s /\
    impactTimeframeEnd
      (formatHypercertData_args initialBadges
         (Samples.valuesWith date_2024_06_02 date_2024_06_30)) = Num e /\
    (s <= e)%Q.
Proof.
  apply (onSubmit_timeframes_ordered Samples.isUrl initialBadges Samples.draft).
  reflexivity.
Defined.

Lemma onSubmit_reads_six_fields_witness :
  formatHypercertData_args initialBadges
    (Samples.valuesWith date_2024_06_02 date_2024_06_30)
  = formatHypercertData_args initialBadges Samples.otherwiseDifferentValues
  /\ onSubmit (fun args => arg_name args) initialBadges
       (Samples.valuesWith date_2024_06_02 date_2024_06_30)
     = onSubmit (fun args => arg_name args) initialBadges
         Samples.otherwiseDifferentValues.
Proof.
  apply (onSubmit_reads_six_fields (fun args => arg_name args) initialBadges
           (Samples.valuesWith date_2024_06_02 date_2024_06_30)
           Samples.otherwiseDifferentValues).
  unfold sameSubmittedFields. simpl. repeat split.
Defined.

End SubmissionExtras.

(* ===================================================================== *)
(** * Properties of the resolver on the values of the form *)
(* ===================================================================== *)

Module FormStateProofs.

Import JsString JsDate Zod Submission.
Import JsStringProofs ZodProofs SubmissionProofs SubmissionExtras.









Section Proofs.

Variable isUrl : string -> bool.







End Proofs.


(** The [defaultValues] of the form, resolved: eight issues, "Required" for
    the two fields they leave out. *)
Example defaultValues_issues :
  map path (fst (HypercertMintSchema_form Samples.isUrl [] defaultValues))
  = [ ["title"]; ["description"]; ["link"]; ["cardImage"]; ["logo"];
      ["banner"]; ["tags"]; ["contributors"] ]
  /\ In {| path := ["cardImage"]; message := "Required" |}
        (fst (HypercertMintSchema_form Samples.isUrl [] defaultValues))
  /\ In {| path := ["contributors"]; message := "Required" |}
        (fst (HypercertMintSchema_form Samples.isUrl [] defaultValues)).
Proof.
  vm_compute. intuition.
Qed.

End FormStateProofs.
